(** * x-ui settings and server services: a shallow embedding of
      [web/service/setting.go] and [web/service/server.go]

    The settings file implements a reflective settings store: a typed
    aggregate ([entity.AllSetting]) is exploded into one [model.Setting] row
    per field, rows missing from the table are overlaid with
    [defaultValueMap], and a handful of typed accessors ([getString],
    [getInt], [GetBasePath], [GetSecret]) sit on top of the same
    insert-or-update routine ([saveSetting]).  The server file reports the
    status of the host to a document store and replaces the xray binary.

    Layout of this development:
    - [Strconv]: the part of Go's [strconv] the service calls ([ParseInt],
      [Atoi], [FormatInt]) on [Z], with the 64-bit wrap-around written out;
    - [Reflect]: struct values and types as the service sees them through
      [reflect]: fields in declaration order, looked up by name;
    - rows, errors, the table and the calls on the storage layer, each of
      which may fail;
    - [Server]: the configuration of the server service, the status
      document, and the update of xray as the calls it makes on the host;
    - the settings service, in the order of the Go file, as functions from
      the state before to the result and the state after, with the
      documents of its uploads;
    - the properties: [strconv], the mapper, the read, the accessors, the
      bulk write, a write followed by a read, the uploads; then the
      theorems at work on sample states, and the server service.

    What lives outside the files is a parameter: the declaration of
    [entity.AllSetting] and its [CheckValid], the embedded template, the
    secret generated at start, the time zone database, which storage calls
    fail, and which calls on the host fail.  The HTTP exchange of the
    uploads, the probes of [GetStatus] and [GetXrayVersions] are left
    out. *)

From Stdlib Require Import ZArith Ascii String List Lia Bool.
From stdpp Require Import base tactics option list strings gmap.

Local Open Scope Z_scope.

(* ===================================================================== *)
(** ** Go's [strconv], base 10                                            *)
(* ===================================================================== *)

Module Strconv.

(** [strconv.ErrSyntax] and [strconv.ErrRange]. *)
Inductive NumErrKind := ErrSyntax | ErrRange.

(** [strconv.NumError]: the failing function, the input and the reason. *)
Record NumError := mkNumError {
  Func : string;
  Num  : string;
  Err  : NumErrKind
}.

Definition syntaxError (fn str : string) : NumError := mkNumError fn str ErrSyntax.
Definition rangeError  (fn str : string) : NumError := mkNumError fn str ErrRange.

Definition maxUint64 : Z := 2 ^ 64 - 1.

(** The platform is 64-bit: [strconv.IntSize = 64]. *)
Definition IntSize : Z := 64.

Definition byte_of (c : ascii) : Z := Z.of_N (N_of_ascii c).

Definition is_digit (c : ascii) : bool :=
  (48 <=? byte_of c) && (byte_of c <=? 57).

(** Outcome of the digit loop of [ParseUint]: the loop either runs to the
    end of the string or leaves with one of the two errors. *)
Inductive loop_result :=
| LoopDone (n : Z)
| LoopSyntax
| LoopRange.

(** The [for _, c := range []byte(s)] loop of [ParseUint] at base 10.
    With [base = 10] the underscore case is off ([base0] is false) and a
    letter gives a digit value of at least 10, so every byte outside
    ['0'..'9'] leaves with a syntax error.  [n] is a [uint64]:
    [n*10] cannot wrap below [cutoff], [n + d] can, and the Go code tests
    the wrap with [n1 < n]. *)
Fixpoint parseUint_loop (maxVal : Z) (s : string) (n : Z) : loop_result :=
  match s with
  | EmptyString => LoopDone n
  | String c rest =>
      if is_digit c then
        let d := byte_of c - 48 in
        let cutoff := maxUint64 / 10 + 1 in
        if cutoff <=? n then LoopRange
        else
          let n10 := n * 10 in
          let n1 := (n10 + d) mod 2 ^ 64 in
          if (n1 <? n10) || (maxVal <? n1) then LoopRange
          else parseUint_loop maxVal rest n1
      else LoopSyntax
  end.

(** [strconv.ParseUint(s, 10, bitSize)]: value and error, as in Go.  The
    service passes the sizes 32 and 0 only, so the check that [bitSize] lies
    between 0 and 64 never fires. *)
Definition ParseUint (s : string) (bitSize : Z) : Z * option NumError :=
  let fnParseUint := "ParseUint"%string in
  match s with
  | EmptyString => (0, Some (syntaxError fnParseUint s))
  | _ =>
      let bitSize := if bitSize =? 0 then IntSize else bitSize in
      let maxVal := 2 ^ bitSize - 1 in
      match parseUint_loop maxVal s 0 with
      | LoopDone n => (n, None)
      | LoopSyntax => (0, Some (syntaxError fnParseUint s))
      | LoopRange  => (maxVal, Some (rangeError fnParseUint s))
      end
  end.

(** [strconv.ParseInt(s, 10, bitSize)]. *)
Definition ParseInt (s0 : string) (bitSize : Z) : Z * option NumError :=
  let fnParseInt := "ParseInt"%string in
  match s0 with
  | EmptyString => (0, Some (syntaxError fnParseInt s0))
  | String c rest =>
      let '(neg, s) :=
        if Ascii.eqb c "+" then (false, rest)
        else if Ascii.eqb c "-" then (true, rest)
        else (false, s0) in
      let '(un, err) := ParseUint s bitSize in
      match err with
      | Some (mkNumError _ _ ErrSyntax) => (0, Some (syntaxError fnParseInt s0))
      | _ =>
          let bitSize := if bitSize =? 0 then IntSize else bitSize in
          let cutoff := 2 ^ (bitSize - 1) in
          if negb neg && (cutoff <=? un) then (cutoff - 1, Some (rangeError fnParseInt s0))
          else if neg && (cutoff <? un) then (- cutoff, Some (rangeError fnParseInt s0))
          else (if neg then - un else un, None)
      end
  end.

(** [strconv.Atoi]: the fast path for short strings computes what
    [ParseInt(s, 10, 0)] computes; only the [Func] of the error differs. *)
Definition Atoi (s : string) : Z * option NumError :=
  let fnAtoi := "Atoi"%string in
  match ParseInt s 0 with
  | (i, Some e) => (i, Some (mkNumError fnAtoi (Num e) (Err e)))
  | (i, None) => (i, None)
  end.

Definition digit_char (d : Z) : ascii := ascii_of_N (Z.to_N (48 + d)).

(** The digit loop of [formatBits]: digits are produced from the least
    significant one into the end of a buffer.  [fuel] bounds the number of
    digits after the first, as the 65-byte buffer does in Go. *)
Fixpoint formatBits (fuel : nat) (u : Z) (acc : string) : string :=
  let acc' := String (digit_char (u mod 10)) acc in
  match fuel with
  | O => acc'
  | S f => if u <? 10 then acc' else formatBits f (u / 10) acc'
  end.

(** [strconv.FormatInt(i, 10)], which is also what [strconv.Itoa] and
    [fmt.Sprint] print for an [int]. *)
Definition FormatInt (i : Z) : string :=
  if i <? 0 then String "-" (formatBits 19 (- i) EmptyString)
  else formatBits 19 i EmptyString.

Definition Itoa (i : Z) : string := FormatInt i.

(** Reading of a string as a decimal numeral, without any bound: an
    optional sign followed by at least one decimal digit. *)
Fixpoint digits_value (s : string) (acc : Z) : option Z :=
  match s with
  | EmptyString => Some acc
  | String c rest =>
      if is_digit c then digits_value rest (acc * 10 + (byte_of c - 48))
      else None
  end.

Definition decimal_value (s : string) : option Z :=
  match s with
  | EmptyString => None
  | String c rest =>
      if Ascii.eqb c "+" then
        match rest with EmptyString => None | _ => digits_value rest 0 end
      else if Ascii.eqb c "-" then
        match rest with EmptyString => None | _ => Z.opp <$> digits_value rest 0 end
      else digits_value s 0
  end.

Definition in_int (bits : Z) (z : Z) : Prop :=
  - 2 ^ (bits - 1) <= z <= 2 ^ (bits - 1) - 1.

(** The width [ParseInt] works at: [bitSize == 0] stands for [IntSize]. *)
Definition effective_bits (bitSize : Z) : Z := if bitSize =? 0 then IntSize else bitSize.

(** What a numeral of value [z] becomes at [bs] bits: itself when it fits,
    the nearest bound and a range error when it does not. *)
Definition clampInt (bs z : Z) : Z * option NumErrKind :=
  if z <? - 2 ^ (bs - 1) then (- 2 ^ (bs - 1), Some ErrRange)
  else if 2 ^ (bs - 1) - 1 <? z then (2 ^ (bs - 1) - 1, Some ErrRange)
  else (z, None).

End Strconv.

Import Strconv.

(* ===================================================================== *)
(** ** The reflected aggregate                                            *)
(* ===================================================================== *)

Module Reflect.

(** The dynamic type of a field, as the type switch of [setSetting] sees
    it: [int], [string], or anything else. *)
Inductive Kind := KInt | KString | KOther.

(** The current value of a field.  A value of another type is kept as the
    text [fmt.Sprint] prints for it, which is all the service looks at. *)
Inductive Value :=
| VInt (n : Z)
| VString (s : string)
| VOther (shown : string).

(** [reflect.StructField], reduced to what the service reads: the field
    name and the result of [field.Tag.Get("json")]. *)
Record StructField := mkField {
  Name : string;
  Tag  : string
}.

(** A struct value, [reflect.ValueOf(allSetting).Elem()]: its fields in
    declaration order, each with its current value. *)
Definition Struct := list (StructField * Value).

(** A struct type: the fields in declaration order with their kinds. *)
Definition StructType := list (StructField * Kind).

Definition kindOf (x : Value) : Kind :=
  match x with
  | VInt _ => KInt
  | VString _ => KString
  | VOther _ => KOther
  end.

Definition zeroOf (k : Kind) : Value :=
  match k with
  | KInt => VInt 0
  | KString => VString EmptyString
  | KOther => VOther EmptyString
  end.

Definition TypeOf (v : Struct) : StructType := prod_map id kindOf <$> v.

(** [&T{}]: every field at the zero value of its type. *)
Definition zeroValue (t : StructType) : Struct := prod_map id zeroOf <$> t.

(** [reflect_util.GetFields]: the struct fields, in declaration order. *)
Definition GetFields (v : Struct) : list StructField := fst <$> v.

(** [v.FieldByName(name)] on a struct value and [t.FieldByName(name)] on a
    struct type: what the first field of that name holds. *)
Fixpoint FieldByName {A} (v : list (StructField * A)) (name : string) : option A :=
  match v with
  | [] => None
  | (f, x) :: rest =>
      if String.eqb (Name f) name then Some x else FieldByName rest name
  end.

(** [v.FieldByName(name).Set...(x)]: assignment through the reflected
    field, which is the first one of that name. *)
Fixpoint SetField (v : Struct) (name : string) (x : Value) : Struct :=
  match v with
  | [] => []
  | (f, y) :: rest =>
      if String.eqb (Name f) name then (f, x) :: rest
      else (f, y) :: SetField rest name x
  end.

(** [fmt.Sprint(fieldV.Interface())]. *)
Definition Sprint (x : Value) : string :=
  match x with
  | VInt n => FormatInt n
  | VString s => s
  | VOther shown => shown
  end.

(** A struct declaration the Go compiler and the settings schema accept:
    no two fields share a name, and no two fields share an external key. *)
Definition WellFormed (fields : list StructField) : Prop :=
  NoDup (Name <$> fields) /\ NoDup (Tag <$> fields).

(** The field a key is mapped to: the first one whose json tag is the key. *)
Definition fieldOfKey (key : string) (fields : list StructField) : option StructField :=
  find (fun f => String.eqb (Tag f) key) fields.

End Reflect.

Import Reflect.

(* ===================================================================== *)
(** ** Rows, errors and the storage layer                                 *)
(* ===================================================================== *)

(** Modelled from the spec: [model.Setting] is declared outside this file;
    a Setting Row is [{ key: string (unique), value: string }], and the
    service reads and writes exactly the fields [Key] and [Value]. *)
Record Setting := mkSetting {
  Key   : string;
  Value : string
}.

(** The errors the service can return. *)
#[warnings="-register-all"]
Inductive error :=
| ErrRecordNotFound                 (* gorm.ErrRecordNotFound *)
| StorageError (msg : string)       (* any other failure of a storage call *)
| ParseError (e : NumError)         (* a strconv.NumError *)
| NewErrorf (msg : string)          (* common.NewErrorf(...) *)
| Recovered (msg : string)          (* errors.New(fmt.Sprint(panicErr)) *)
| MultiError (errs : list error).   (* common.Combine(...) *)

(** [database.IsNotFound]. *)
Definition IsNotFound (err : error) : bool :=
  match err with
  | ErrRecordNotFound => true
  | _ => false
  end.

(** Modelled from the spec: [common.Combine] is declared outside this file;
    the result of a bulk write is "an aggregated multi-error" of the
    collected failures, and no error at all when nothing failed. *)
Definition Combine (errs : list error) : option error :=
  match errs with
  | [] => None
  | _ => Some (MultiError errs)
  end.

(** What the service hands to the telemetry sink.  The upload itself runs in
    a goroutine of its own and reports nothing back; the model records the
    dispatch. *)
Inductive Upload :=
| UploadKey (key value : string)       (* uploadToFirestore(key, value) *)
| UploadAll (allSetting : Struct).     (* uploadAllSettingsToFirestore(allSetting) *)

(** The state the service works on: the settings table, in table order, and
    the uploads dispatched so far. *)
Record World := mkWorld {
  table : list Setting;
  sink  : list Upload
}.

(** The calls the service makes on the storage layer. *)
Inductive Op :=
| OpFind                   (* db.Model(model.Setting{}).Find(&settings) *)
| OpFirst (key : string)   (* db.Model(...).Where("key = ?", key).First(setting) *)
| OpCreate (key : string)  (* db.Create(&model.Setting{Key: key, ...}) *)
| OpSave (key : string)    (* db.Save(setting) *)
| OpDelete.                (* db.Where("1 = 1").Delete(model.Setting{}) *)

Definition hasKey (key : string) (r : Setting) : bool := String.eqb (Key r) key.

(** [db.Save(setting)] for a row fetched by key: the first row with that key
    is overwritten in place. *)
Fixpoint saveRow (key value : string) (t : list Setting) : list Setting :=
  match t with
  | [] => []
  | r :: rest =>
      if hasKey key r then mkSetting key value :: rest
      else r :: saveRow key value rest
  end.

Definition push (u : Upload) (w : World) : World :=
  mkWorld (table w) (sink w ++ [u]).

(** [strings.HasPrefix] and [strings.HasSuffix]. *)
Definition HasPrefix (s prefix : string) : bool :=
  (String.length prefix <=? String.length s)%nat
  && String.eqb (substring 0 (String.length prefix) s) prefix.

Definition HasSuffix (s suffix : string) : bool :=
  (String.length suffix <=? String.length s)%nat
  && String.eqb
       (substring (String.length s - String.length suffix) (String.length suffix) s)
       suffix.

(** What a stored string becomes in a field of kind [k]: the value the type
    switch of [setSetting] assigns, if it assigns one. *)
Definition decode (k : Kind) (value : string) : option Reflect.Value :=
  match k with
  | KInt =>
      match ParseInt value 32 with
      | (n, None) => Some (VInt n)
      | (_, Some _) => None
      end
  | KString => Some (VString value)
  | KOther => None
  end.

(** A value that survives the trip through a row: text, or an integer
    within the 32 bits [setSetting] parses. *)
Definition storable (x : Reflect.Value) : Prop :=
  match x with
  | VInt n => in_int 32 n
  | VString _ => True
  | VOther _ => False
  end.

(** The errors of the mapper itself: a stored string that does not parse, a
    field of a type the mapper does not handle, a recovered panic. *)
Definition isTypeOrParseError (err : error) : bool :=
  match err with
  | ParseError _ | NewErrorf _ | Recovered _ => true
  | _ => false
  end.

(* ===================================================================== *)
(** ** Sample declarations and states                                     *)
(* ===================================================================== *)

(** A declaration of the aggregate with the keys of the default catalog that
    the panel shows: text fields and one integer field, the port. *)
Definition sampleType : StructType :=
  [ (mkField "WebListen" "webListen", KString);
    (mkField "WebPort" "webPort", KInt);
    (mkField "WebCertFile" "webCertFile", KString);
    (mkField "WebKeyFile" "webKeyFile", KString);
    (mkField "WebBasePath" "webBasePath", KString);
    (mkField "XrayTemplateConfig" "xrayTemplateConfig", KString);
    (mkField "TimeLocation" "timeLocation", KString) ]%string.

Definition sampleSetting : Struct :=
  [ (mkField "WebListen" "webListen", VString "127.0.0.1");
    (mkField "WebPort" "webPort", VInt 8443);
    (mkField "WebCertFile" "webCertFile", VString EmptyString);
    (mkField "WebKeyFile" "webKeyFile", VString EmptyString);
    (mkField "WebBasePath" "webBasePath", VString "/panel/");
    (mkField "XrayTemplateConfig" "xrayTemplateConfig", VString "{}");
    (mkField "TimeLocation" "timeLocation", VString "UTC") ]%string.

(** The same aggregate with a port that validation refuses. *)
Definition badPortSetting : Struct :=
  SetField sampleSetting "WebPort" (VInt 70000).

(** A validation in the spirit of the spec ("a valid port range"). *)
Definition checkPort (allSetting : Struct) : Struct * option error :=
  match FieldByName allSetting "WebPort" with
  | Some (VInt port) =>
      if (0 <? port) && (port <=? 65535) then (allSetting, None)
      else (allSetting, Some (NewErrorf "web port is not a valid port"))
  | _ => (allSetting, None)
  end.

(** A validation that accepts everything. *)
Definition acceptAll (allSetting : Struct) : Struct * option error := (allSetting, None).

(** A storage layer that never fails, and one that cannot insert a row for
    one key. *)
Definition noFault : Op -> option string := fun _ => None.

Definition lockedOn (key : string) : Op -> option string :=
  fun op =>
    match op with
    | OpCreate k => if String.eqb k key then Some "database is locked"%string else None
    | _ => None
    end.

Definition emptyWorld : World := mkWorld [] [].

(** A table written by an earlier version: a port, and a key no field has. *)
Definition oldWorld : World :=
  mkWorld [mkSetting "webPort" "54321"; mkSetting "secret" "s3cr3t"] [].

(** An aggregate of two text fields. *)
Definition twoKeys : Struct :=
  [ (mkField "A" "a", VString "1"); (mkField "B" "b", VString "2") ]%string.


(* ===================================================================== *)
(** ** The server service: [web/service/server.go]                        *)
(* ===================================================================== *)

(** The part of the server service that decides something: which endpoint
    the status goes to, which fields the status document has, and which
    calls on the host an update of xray makes, in which order.  The probes
    of [GetStatus] and the list of releases of [GetXrayVersions] are calls
    on the host and on the network with nothing in between, and are left
    out. *)
Module Server.

(** An error of the host (of [net/http], [os], [io], [archive/zip]), known
    by its text. *)
Definition oserr := string.

(** [ProcessState] is a string type. *)
Definition ProcessState := string.

Record FirestoreConfig := mkFirestoreConfig {
  ProjectID      : string;
  CollectionName : string;
  Enabled        : bool;
  BaseURL        : string;
  Timeout        : Z
}.

Definition defaultFirestoreConfig : FirestoreConfig :=
  {| ProjectID := "datacollection-309fc";
     CollectionName := "dataCollection";
     Enabled := true;
     BaseURL := "https://firestore.googleapis.com/v1/projects/datacollection-309fc/databases/(default)/documents/dataCollection";
     Timeout := 15 |}.


Definition NewServerServiceDefault : FirestoreConfig := defaultFirestoreConfig.

(** *** The status document *)

Section Status.

(** Go's [float64] and [time.Time], of which the service only moves values
    around, and [t.Format(time.RFC3339)]. *)
Variable float64 : Type.
Variable Time : Type.
Variable RFC3339 : Time -> string.

(** [Status], its nested structs flattened: [Mem.Current] is [MemCurrent]
    and so on.  The [uint64] and [int] fields are integers. *)
Record Status := mkStatus {
  T              : Time;
  Cpu            : float64;
  MemCurrent     : Z;
  MemTotal       : Z;
  SwapCurrent    : Z;
  SwapTotal      : Z;
  DiskCurrent    : Z;
  DiskTotal      : Z;
  XrayState      : ProcessState;
  XrayErrorMsg   : string;
  XrayVersion    : string;
  Uptime         : Z;
  Loads          : list float64;
  TcpCount       : Z;
  UdpCount       : Z;
  NetIOUp        : Z;
  NetIODown      : Z;
  NetTrafficSent : Z;
  NetTrafficRecv : Z;
  Timestamp      : Time
}.

(** [uploadData.Timestamp = now] on a copy of the status. *)
Definition withTimestamp (status : Status) (now : Time) : Status :=
  {| T := T status; Cpu := Cpu status;
     MemCurrent := MemCurrent status; MemTotal := MemTotal status;
     SwapCurrent := SwapCurrent status; SwapTotal := SwapTotal status;
     DiskCurrent := DiskCurrent status; DiskTotal := DiskTotal status;
     XrayState := XrayState status; XrayErrorMsg := XrayErrorMsg status;
     XrayVersion := XrayVersion status; Uptime := Uptime status;
     Loads := Loads status; TcpCount := TcpCount status;
     UdpCount := UdpCount status; NetIOUp := NetIOUp status;
     NetIODown := NetIODown status;
     NetTrafficSent := NetTrafficSent status;
     NetTrafficRecv := NetTrafficRecv status;
     Timestamp := now |}.

(** The value of a field of the document: a map with one entry, whose key
    says how to read it. *)
Inductive FieldValue :=
| doubleValue (x : float64)
| integerValue (s : string)
| stringValue (s : string)
| timestampValue (s : string).

(** [fmt.Sprintf("%d", i)] of an [int] or a [uint64]. *)
Definition Sprintd (i : Z) : string := Strconv.FormatInt i.

(** [convertToFirestoreFields]: the assignments in the order of the
    source.  The three loads are written when the slice has three elements
    or more, which is when the pattern matches. *)
Definition convertToFirestoreFields (status : Status)
  : gmap string FieldValue :=
  let fields : gmap string FieldValue := ∅ in
  let fields := <["cpu" := doubleValue (Cpu status)]> fields in
  let fields := <["uptime" := integerValue (Sprintd (Uptime status))]> fields in
  let fields := <["tcpCount" := integerValue (Sprintd (TcpCount status))]> fields in
  let fields := <["udpCount" := integerValue (Sprintd (UdpCount status))]> fields in
  let fields := <["timestamp" := timestampValue (RFC3339 (Timestamp status))]> fields in
  let fields := <["memCurrent" := integerValue (Sprintd (MemCurrent status))]> fields in
  let fields := <["memTotal" := integerValue (Sprintd (MemTotal status))]> fields in
  let fields := <["swapCurrent" := integerValue (Sprintd (SwapCurrent status))]> fields in
  let fields := <["swapTotal" := integerValue (Sprintd (SwapTotal status))]> fields in
  let fields := <["diskCurrent" := integerValue (Sprintd (DiskCurrent status))]> fields in
  let fields := <["diskTotal" := integerValue (Sprintd (DiskTotal status))]> fields in
  let fields := <["xrayState" := stringValue (XrayState status)]> fields in
  let fields :=
    if String.eqb (XrayErrorMsg status) EmptyString then fields
    else <["xrayErrorMsg" := stringValue (XrayErrorMsg status)]> fields in
  let fields := <["xrayVersion" := stringValue (XrayVersion status)]> fields in
  let fields := <["netIOUp" := integerValue (Sprintd (NetIOUp status))]> fields in
  let fields := <["netIODown" := integerValue (Sprintd (NetIODown status))]> fields in
  let fields := <["netTrafficSent" := integerValue (Sprintd (NetTrafficSent status))]> fields in
  let fields := <["netTrafficRecv" := integerValue (Sprintd (NetTrafficRecv status))]> fields in
  match Loads status with
  | load1 :: load5 :: load15 :: _ =>
      let fields := <["load1" := doubleValue load1]> fields in
      let fields := <["load5" := doubleValue load5]> fields in
      <["load15" := doubleValue load15]> fields
  | _ => fields
  end.

(** [json.Marshal] of the document, which refuses some values (a float
    that is not a number, for one). *)
Variable Marshal : gmap string FieldValue -> string * option oserr.

(** The request the goroutine of [uploadToFirestore] asks [net/http] for. *)
Record Request := mkRequest {
  Method         : string;
  URL            : string;
  ContentType    : string;
  Body           : string;
  TimeoutSeconds : Z
}.

(** [uploadToFirestore] of the server service: the request it starts, if
    any.  What the endpoint answers is logged and otherwise dropped. *)
Definition uploadToFirestore (firestoreConfig : FirestoreConfig)
    (status : Status) (now : Time) : option Request :=
  if negb (Enabled firestoreConfig) then None
  else
    let uploadData := withTimestamp status now in
    match Marshal (convertToFirestoreFields uploadData) with
    | (_, Some _) => None
    | (firestoreJsonData, None) =>
        Some {| Method := "POST";
                URL := BaseURL firestoreConfig;
                ContentType := "application/json";
                Body := firestoreJsonData;
                TimeoutSeconds := Timeout firestoreConfig |}
    end.

End Status.

Arguments mkStatus {float64 Time}.
Arguments T {float64 Time}.
Arguments Cpu {float64 Time}.
Arguments XrayErrorMsg {float64 Time}.
Arguments Loads {float64 Time}.
Arguments Timestamp {float64 Time}.
Arguments withTimestamp {float64 Time}.
Arguments doubleValue {float64}.
Arguments integerValue {float64}.
Arguments stringValue {float64}.
Arguments timestampValue {float64}.
Arguments convertToFirestoreFields {float64 Time}.
Arguments uploadToFirestore {float64 Time}.

(** *** Updating xray *)

(** The calls [downloadXRay] and [UpdateXray] make on the host. *)
Inductive Call :=
| HttpGet (url : string)                 (* http.Get(url) *)
| BodyClose                              (* resp.Body.Close() *)
| OsRemove (path : string)               (* os.Remove(path) *)
| OsCreate (path : string)               (* os.Create(path) *)
| CopyBody (path : string)               (* io.Copy(file, resp.Body) *)
| FileClose (path : string)              (* file.Close() *)
| OsOpen (path : string)                 (* os.Open(path) *)
| FileStat (path : string)               (* zipFile.Stat() *)
| ZipNewReader (path : string)           (* zip.NewReader(zipFile, size) *)
| StopXray                               (* xrayService.StopXray() *)
| RestartXray                            (* xrayService.RestartXray(true) *)
| ZipOpen (zipName : string)             (* reader.Open(zipName) *)
| OsOpenFile (path : string)             (* os.OpenFile(path, ...) *)
| CopyEntry (zipName path : string).     (* io.Copy(file, zipFile) *)

(** The calls made so far, the oldest first. *)
Definition Trace := list Call.






Section Host.

(** [runtime.GOOS] and [runtime.GOARCH]; the paths of the xray package;
    and the host: which call fails, given the calls made before it. *)
Variable GOOS GOARCH : string.
Variable GetBinaryPath GetGeositePath GetGeoipPath : string.
Variable fails : Trace -> Call -> option oserr.

(** Making a call: its error, if any, and the trace with the call on it. *)
Definition call (c : Call) (t : Trace) : option oserr * Trace :=
  (fails t c, t ++ [c]).

(** The [fileName] and the [url] of [downloadXRay]. *)
Definition xrayFileName : string :=
  let osName := if String.eqb GOOS "darwin" then "macos" else GOOS in
  let arch :=
    if String.eqb GOARCH "amd64" then "64"
    else if String.eqb GOARCH "arm64" then "arm64-v8a"
    else GOARCH in
  "Xray-" +:+ osName +:+ "-" +:+ arch +:+ ".zip".

Definition xrayURL (version : string) : string :=
  "https://github.com/XTLS/Xray-core/releases/download/" +:+ version
  +:+ "/" +:+ xrayFileName.

(** [downloadXRay].  The deferred closes run when the function returns,
    the last deferred first. *)
Definition downloadXRay (version : string) (t : Trace)
  : (string * option oserr) * Trace :=
  let fileName := xrayFileName in
  let url := xrayURL version in
  let '(err, t) := call (HttpGet url) t in
  match err with
  | Some e => ((EmptyString, Some e), t)
  | None =>
      (* defer resp.Body.Close() *)
      let '(_, t) := call (OsRemove fileName) t in
      let '(err, t) := call (OsCreate fileName) t in
      match err with
      | Some e => ((EmptyString, Some e), snd (call BodyClose t))
      | None =>
          (* defer file.Close() *)
          let '(err, t) := call (CopyBody fileName) t in
          let t := snd (call (FileClose fileName) t) in
          let t := snd (call BodyClose t) in
          match err with
          | Some e => ((EmptyString, Some e), t)
          | None => ((fileName, None), t)
          end
      end
  end.

(** The closure [copyZipFile] of [UpdateXray]. *)
Definition copyZipFile (zipName fileName : string) (t : Trace)
  : option oserr * Trace :=
  let '(err, t) := call (ZipOpen zipName) t in
  match err with
  | Some e => (Some e, t)
  | None =>
      let '(_, t) := call (OsRemove fileName) t in
      let '(err, t) := call (OsOpenFile fileName) t in
      match err with
      | Some e => (Some e, t)
      | None =>
          (* defer file.Close() *)
          let '(err, t) := call (CopyEntry zipName fileName) t in
          (err, snd (call (FileClose fileName) t))
      end
  end.

(** [UpdateXray].  [closeAndRemove] is the first deferred function and
    [restart] the second, which runs before the first. *)
Definition UpdateXray (version : string) (t : Trace) : option oserr * Trace :=
  match downloadXRay version t with
  | ((_, Some e), t) => (Some e, t)
  | ((zipFileName, None), t) =>
      let '(err, t) := call (OsOpen zipFileName) t in
      match err with
      | Some e => (Some e, t)
      | None =>
          let closeAndRemove (t : Trace) : Trace :=
            snd (call (OsRemove zipFileName)
                   (snd (call (FileClose zipFileName) t))) in
          let '(err, t) := call (FileStat zipFileName) t in
          match err with
          | Some e => (Some e, closeAndRemove t)
          | None =>
              let '(err, t) := call (ZipNewReader zipFileName) t in
              match err with
              | Some e => (Some e, closeAndRemove t)
              | None =>
                  let '(_, t) := call StopXray t in
                  let restart (t : Trace) : Trace :=
                    closeAndRemove (snd (call RestartXray t)) in
                  match copyZipFile "xray" GetBinaryPath t with
                  | (Some e, t) => (Some e, restart t)
                  | (None, t) =>
                      match copyZipFile "geosite.dat" GetGeositePath t with
                      | (Some e, t) => (Some e, restart t)
                      | (None, t) =>
                          match copyZipFile "geoip.dat" GetGeoipPath t with
                          | (Some e, t) => (Some e, restart t)
                          | (None, t) => (None, restart t)
                          end
                      end
                  end
              end
          end
      end
  end.

End Host.

(** A host on which every call succeeds. *)
Definition healthy : Trace -> Call -> option oserr := fun _ _ => None.

End Server.

(* ===================================================================== *)
(** ** The service                                                        *)
(* ===================================================================== *)

Section Service.

(** The embedded [config.json] and the value [random.Seq(32)] took when the
    process started. *)
Variable xrayTemplateConfig : string.
Variable defaultSecret : string.

(** The declaration of [entity.AllSetting], which lives in another package. *)
Variable AllSettingT : StructType.

(** [allSetting.CheckValid()]: the method has a pointer receiver, so
    besides its error it leaves the aggregate as the rest of
    [UpdateAllSetting] reads it. *)
Variable CheckValid : Struct -> Struct * option error.

(** The storage calls that fail, with the message of the failure.  A call
    that fails leaves the table as it was. *)
Variable fault : Op -> option string.

Definition defaultValueMap : gmap string string :=
  list_to_map [
    ("xrayTemplateConfig", xrayTemplateConfig);
    ("webListen", EmptyString);
    ("webPort", "54321");
    ("webCertFile", EmptyString);
    ("webKeyFile", EmptyString);
    ("secret", defaultSecret);
    ("webBasePath", "/");
    ("timeLocation", "Asia/Shanghai")
  ]%string.

(** [db.Model(model.Setting{}).Find(&settings)]. *)
Definition dbFind (w : World) : list Setting * option error :=
  match fault OpFind with
  | Some msg => ([], Some (StorageError msg))
  | None => (table w, None)
  end.

(** [db.Where("1 = 1").Delete(model.Setting{})]. *)
Definition dbDelete (w : World) : option error * World :=
  match fault OpDelete with
  | Some msg => (Some (StorageError msg), w)
  | None => (None, mkWorld [] (sink w))
  end.

(** [db.Create(&model.Setting{Key: key, Value: value})]. *)
Definition dbCreate (key value : string) (w : World) : option error * World :=
  match fault (OpCreate key) with
  | Some msg => (Some (StorageError msg), w)
  | None => (None, mkWorld (table w ++ [mkSetting key value]) (sink w))
  end.

(** [db.Save(setting)] with [setting] the row fetched for [key]. *)
Definition dbSave (key value : string) (w : World) : option error * World :=
  match fault (OpSave key) with
  | Some msg => (Some (StorageError msg), w)
  | None => (None, mkWorld (saveRow key value (table w)) (sink w))
  end.

Definition uploadToFirestore (key value : string) (w : World) : World :=
  push (UploadKey key value) w.


(** [uploadAllSettingsToFirestore]: the bulk upload is handed to a goroutine
    of its own; what is recorded is the aggregate it was given. *)
Definition uploadAllSettingsToFirestore (allSetting : Struct) (w : World) : World :=
  push (UploadAll allSetting) w.

(** The closure [setSetting] of [GetAllSetting], on the aggregate under
    construction.  It either assigns one field or leaves with an error before
    any assignment. *)
Definition setSetting (v : Struct) (key value : string) : Struct * option error :=
  match find (fun f => String.eqb (Tag f) key) (GetFields v) with
  | None => (v, None) (* not a field of the aggregate: nothing to set *)
  | Some field =>
      match FieldByName v (Name field) with
      | None =>
          (v, Some (Recovered "reflect: call of reflect.Value.Interface on zero Value"))
      | Some (VInt _) =>
          match ParseInt value 32 with
          | (_, Some err) => (v, Some (ParseError err))
          | (n, None) => (SetField v (Name field) (VInt n), None)
          end
      | Some (VString _) => (SetField v (Name field) (VString value), None)
      | Some (VOther t) =>
          (v, Some (NewErrorf ("unknown field " +:+ key +:+ " type " +:+ t)))
      end
  end.

(** [for _, setting := range settings { ... }] of [GetAllSetting]. *)
Fixpoint applySettings (settings : list Setting) (v : Struct) (keyMap : gmap string bool)
  : Struct * gmap string bool * option error :=
  match settings with
  | [] => (v, keyMap, None)
  | setting :: rest =>
      match setSetting v (Key setting) (Value setting) with
      | (_, Some err) => (v, keyMap, Some err)
      | (v', None) => applySettings rest v' (<[Key setting := true]> keyMap)
      end
  end.

(** [for key, value := range defaultValueMap { ... }] of [GetAllSetting];
    [entries] are the entries of the map in the order the iteration visits
    them, which Go leaves open. *)
Fixpoint applyDefaults (entries : list (string * string)) (keyMap : gmap string bool)
  (v : Struct) : Struct * option error :=
  match entries with
  | [] => (v, None)
  | (key, value) :: rest =>
      if default false (keyMap !! key) then applyDefaults rest keyMap v
      else
        match setSetting v key value with
        | (_, Some err) => (v, Some err)
        | (v', None) => applyDefaults rest keyMap v'
        end
  end.

Definition GetAllSetting (entries : list (string * string)) (w : World)
  : option Struct * option error :=
  match dbFind w with
  | (_, Some err) => (None, Some err)
  | (settings, None) =>
      let allSetting := zeroValue AllSettingT in
      match applySettings settings allSetting ∅ with
      | (_, _, Some err) => (None, Some err)
      | (allSetting, keyMap, None) =>
          match applyDefaults entries keyMap allSetting with
          | (_, Some err) => (None, Some err)
          | (allSetting, None) => (Some allSetting, None)
          end
      end
  end.

Definition ResetSettings (w : World) : option error * World :=
  match dbDelete w with
  | (None, w') => (None, uploadToFirestore "reset_settings" "all_settings_reset" w')
  | (Some err, w') => (Some err, w')
  end.

Definition getSetting (key : string) (w : World) : option Setting * option error :=
  match fault (OpFirst key) with
  | Some msg => (None, Some (StorageError msg))
  | None =>
      match find (hasKey key) (table w) with
      | Some setting => (Some setting, None)
      | None => (None, Some ErrRecordNotFound)
      end
  end.

Definition saveSetting (key value : string) (w : World) : option error * World :=
  match getSetting key w with
  | (_, Some err) =>
      if IsNotFound err then
        match dbCreate key value w with
        | (None, w') => (None, uploadToFirestore key value w')
        | (Some err, w') => (Some err, w')
        end
      else (Some err, w)
  | (_, None) =>
      match dbSave key value w with
      | (None, w') => (None, uploadToFirestore key value w')
      | (Some err, w') => (Some err, w')
      end
  end.

Definition getString (key : string) (w : World) : string * option error :=
  match getSetting key w with
  | (_, Some err) =>
      if IsNotFound err then
        match defaultValueMap !! key with
        | None =>
            (EmptyString, Some (NewErrorf ("key <" +:+ key +:+ "> not in defaultValueMap")))
        | Some value => (value, None)
        end
      else (EmptyString, Some err)
  | (Some setting, None) => (Value setting, None)
  | (None, None) => (EmptyString, None)
  end%string.

Definition setString (key value : string) (w : World) : option error * World :=
  saveSetting key value w.

Definition getInt (key : string) (w : World) : Z * option error :=
  match getString key w with
  | (_, Some err) => (0, Some err)
  | (str, None) =>
      match Atoi str with
      | (n, Some e) => (n, Some (ParseError e))
      | (n, None) => (n, None)
      end
  end.

Definition setInt (key : string) (value : Z) (w : World) : option error * World :=
  setString key (Itoa value) w.

Definition GetXrayConfigTemplate := getString "xrayTemplateConfig".
Definition GetListen := getString "webListen".
Definition GetPort := getInt "webPort".
Definition SetPort (port : Z) := setInt "webPort" port.
Definition GetCertFile := getString "webCertFile".
Definition GetKeyFile := getString "webKeyFile".

(** [GetSecret]: the result [[]byte(secret), err] and the state it leaves.
    A failure of the save is only logged. *)
Definition GetSecret (w : World) : (string * option error) * World :=
  let '(secret, err) := getString "secret" w in
  if String.eqb secret (default EmptyString (defaultValueMap !! "secret"%string)) then
    ((secret, err), snd (saveSetting "secret" secret w))
  else ((secret, err), w).

Definition normalizeBasePath (basePath : string) : string :=
  let basePath := if negb (HasPrefix basePath "/") then ("/" +:+ basePath)%string else basePath in
  if negb (HasSuffix basePath "/") then (basePath +:+ "/")%string else basePath.

Definition GetBasePath (w : World) : string * option error :=
  match getString "webBasePath" w with
  | (_, Some err) => (EmptyString, Some err)
  | (basePath, None) => (normalizeBasePath basePath, None)
  end.

(** The field loop of [UpdateAllSetting]: one [saveSetting] per field, the
    failures collected in [errs], the loop never left early. *)
Fixpoint saveFields (v : Struct) (fields : list StructField) (errs : list error)
  (w : World) : list error * World :=
  match fields with
  | [] => (errs, w)
  | field :: rest =>
      let key := Tag field in
      match FieldByName v (Name field) with
      | None => (errs, w) (* no such field: cannot happen, [fields] are those of [v] *)
      | Some fieldV =>
          let value := Sprint fieldV in
          match saveSetting key value w with
          | (Some err, w') => saveFields v rest (errs ++ [err]) w'
          | (None, w') => saveFields v rest errs w'
          end
      end
  end.

Definition UpdateAllSetting (allSetting : Struct) (w : World) : option error * World :=
  match CheckValid allSetting with
  | (_, Some err) => (Some err, w)
  | (allSetting, None) =>
      let '(errs, w') := saveFields allSetting (GetFields allSetting) [] w in
      let w'' :=
        if (List.length errs =? 0)%nat then uploadAllSettingsToFirestore allSetting w'
        else w' in
      (Combine errs, w'')
  end.

(** What [saveSetting] answers, field by field, when each field of [slots]
    is saved from state [w]: the failures, the keys that failed, and the
    uploads of the keys that did not. *)
Definition saveFailures (slots : Struct) (w : World) : list error :=
  omap (fun '(field, x) => fst (saveSetting (Tag field) (Sprint x) w)) slots.

Definition failedKeys (slots : Struct) (w : World) : list string :=
  omap (fun '(field, x) =>
          match fst (saveSetting (Tag field) (Sprint x) w) with
          | Some _ => Some (Tag field)
          | None => None
          end) slots.

Definition savedUploads (slots : Struct) (w : World) : list Upload :=
  omap (fun '(field, x) =>
          match fst (saveSetting (Tag field) (Sprint x) w) with
          | Some _ => None
          | None => Some (UploadKey (Tag field) (Sprint x))
          end) slots.

(** The row a field is flattened to. *)
Definition rowOf (slot : StructField * Reflect.Value) : Setting :=
  mkSetting (Tag (fst slot)) (Sprint (snd slot)).

Arguments saveFailures : simpl never.
Arguments savedUploads : simpl never.
Arguments failedKeys : simpl never.


(* ===================================================================== *)
(** ** The documents of the uploads, and the time zone                    *)
(* ===================================================================== *)

Definition FIRESTORE_PROJECT_ID : string := "datacollection-309fc".
Definition FIRESTORE_COLLECTION : string := "dataCollection".
Definition FIRESTORE_BASE_URL : string :=
  "https://firestore.googleapis.com/v1/projects/" +:+ FIRESTORE_PROJECT_ID
  +:+ "/databases/(default)/documents/" +:+ FIRESTORE_COLLECTION.

(** [FirestoreValue]: a struct of two strings, of which the uploads fill
    one. *)
Record FirestoreValue := mkFirestoreValue {
  StringValue  : string;
  IntegerValue : string
}.

(** The type switch both uploads run on a value: a string goes to
    [StringValue], an [int] to [IntegerValue] in decimal, anything else to
    [StringValue] as [fmt.Sprint] prints it. *)
Definition firestoreValueOf (value : Reflect.Value) : FirestoreValue :=
  match value with
  | VString v => mkFirestoreValue v EmptyString
  | VInt v => mkFirestoreValue EmptyString (Itoa v)
  | VOther shown => mkFirestoreValue shown EmptyString
  end.

(** The document the goroutine of [uploadToFirestore] builds: the setting
    first, then the two entries of metadata.  [now] is
    [time.Now().Format(time.RFC3339)]. *)
Definition settingDocument (key : string) (value : Reflect.Value) (now : string)
  : gmap string FirestoreValue :=
  let fields := <[key := firestoreValueOf value]> (∅ : gmap string FirestoreValue) in
  let fields := <["timestamp"%string := mkFirestoreValue now EmptyString]> fields in
  <["operation"%string := mkFirestoreValue "setting_update" EmptyString]> fields.

(** The address the document is posted to; [unix] is [time.Now().Unix()]. *)
Definition settingURL (key : string) (unix : Z) : string :=
  FIRESTORE_BASE_URL +:+ "/" +:+ key +:+ "_" +:+ FormatInt unix.


Definition bulkURL (unix : Z) : string :=
  FIRESTORE_BASE_URL +:+ "/bulk_update_" +:+ FormatInt unix.

(** [*time.Location] and [time.LoadLocation], which rest on the time zone
    database of the host. *)
Variable Location : Type.
Variable LoadLocation : string -> option Location * option error.

(** [GetTimeLocation]: a stored zone that does not load is logged and
    replaced by the zone of the default catalog. *)
Definition GetTimeLocation (w : World) : option Location * option error :=
  match getString "timeLocation" w with
  | (_, Some err) => (None, Some err)
  | (l, None) =>
      match LoadLocation l with
      | (_, Some err) =>
          let defaultLocation :=
            default EmptyString (defaultValueMap !! "timeLocation"%string) in
          LoadLocation defaultLocation
      | (location, None) => (location, None)
      end
  end.

(** Whether the key of a row is the json tag of a field of the aggregate. *)
Definition knownRow (r : Setting) : bool :=
  match fieldOfKey (Key r) (fst <$> AllSettingT) with
  | Some _ => true
  | None => false
  end.

(** Sample data for the properties below: a zone database that knows two
    zones, and a declaration with a field the default catalog does not
    know. *)
Definition sampleLoadLocation (name : string) : option string * option error :=
  if String.eqb name "Asia/Shanghai" || String.eqb name "UTC" then (Some name, None)
  else (None, Some (NewErrorf ("unknown time zone " +:+ name))).


(* ===================================================================== *)
(** ** Properties of the [strconv] functions                              *)
(* ===================================================================== *)

Example ParseInt_port : ParseInt "54321" 32 = (54321, None).
Proof. reflexivity. Qed.

Example ParseInt_min32 : ParseInt "-2147483648" 32 = (-2147483648, None).
Proof. reflexivity. Qed.

Example ParseInt_over32 :
  ParseInt "2147483648" 32 = (2147483647, Some (rangeError "ParseInt" "2147483648")).
Proof. reflexivity. Qed.

Example ParseInt_letters :
  ParseInt "12a" 32 = (0, Some (syntaxError "ParseInt" "12a")).
Proof. reflexivity. Qed.

Example ParseInt_sign_only : ParseInt "-" 32 = (0, Some (syntaxError "ParseInt" "-")).
Proof. reflexivity. Qed.

Example Atoi_over64 :
  Atoi "9223372036854775808"
  = (9223372036854775807, Some (rangeError "Atoi" "9223372036854775808")).
Proof. reflexivity. Qed.

Example FormatInt_samples :
  FormatInt (-120) = "-120"%string /\ FormatInt 0 = "0"%string /\
  FormatInt 54321 = "54321"%string.
Proof. repeat split; reflexivity. Qed.

Lemma byte_of_range c : 0 <= byte_of c < 256.
Proof.
  unfold byte_of. pose proof (N_ascii_bounded c) as H. lia.
Qed.

Lemma byte_of_digit_char d : 0 <= d < 10 -> byte_of (digit_char d) = 48 + d.
Proof.
  intros Hd. unfold byte_of, digit_char.
  rewrite N_ascii_embedding by lia. lia.
Qed.

Lemma is_digit_digit_char d : 0 <= d < 10 -> is_digit (digit_char d) = true.
Proof.
  intros Hd. unfold is_digit. rewrite byte_of_digit_char by done.
  apply andb_true_iff; split; apply Z.leb_le; lia.
Qed.

Lemma is_digit_bounds c : is_digit c = true -> 0 <= byte_of c - 48 <= 9.
Proof.
  unfold is_digit. intros [H1 H2]%andb_true_iff.
  apply Z.leb_le in H1, H2. lia.
Qed.

Lemma is_digit_not_sign c :
  is_digit c = true -> Ascii.eqb c "+" = false /\ Ascii.eqb c "-" = false.
Proof.
  intros H%is_digit_bounds.
  split; apply Ascii.eqb_neq; intros ->; unfold byte_of in H; simpl in H; lia.
Qed.

Lemma digits_value_ge s : forall acc z,
  0 <= acc -> digits_value s acc = Some z -> acc <= z.
Proof.
  induction s as [|c s IH]; simpl; intros acc z Hacc Hz.
  - injection Hz as <-. lia.
  - destruct (is_digit c) eqn:Hc; [|done].
    apply is_digit_bounds in Hc.
    apply IH in Hz; lia.
Qed.

Lemma digits_value_None s : forall acc acc',
  digits_value s acc = None -> digits_value s acc' = None.
Proof.
  induction s as [|c s IH]; simpl; intros acc acc' H; [done|].
  destruct (is_digit c); [eauto|done].
Qed.

Lemma parseUint_loop_digits maxVal s : forall n z,
  maxVal <= maxUint64 -> 0 <= n <= maxVal ->
  digits_value s n = Some z ->
  parseUint_loop maxVal s n = if z <=? maxVal then LoopDone z else LoopRange.
Proof.
  unfold maxUint64.
  induction s as [|c s IH]; simpl; intros n z Hmax Hn Hz.
  - injection Hz as <-. destruct (Z.leb_spec n maxVal); [done|lia].
  - destruct (is_digit c) eqn:Hc; [|done].
    pose proof (is_digit_bounds _ Hc) as Hd.
    assert (Hge : n * 10 + (byte_of c - 48) <= z)
      by (apply (digits_value_ge s); [lia|done]).
    change (maxUint64 / 10 + 1) with 1844674407370955162.
    change (2 ^ 64) with 18446744073709551616 in *.
    destruct (Z.leb_spec 1844674407370955162 n) as [Hcut|Hcut].
    { destruct (Z.leb_spec z maxVal); [lia|done]. }
    destruct (Z.lt_ge_cases (n * 10 + (byte_of c - 48)) 18446744073709551616) as [Hlt|Hwrap].
    + rewrite Z.mod_small by lia.
      destruct (Z.ltb_spec (n * 10 + (byte_of c - 48)) (n * 10)); [lia|].
      destruct (Z.ltb_spec maxVal (n * 10 + (byte_of c - 48))); simpl.
      * destruct (Z.leb_spec z maxVal); [lia|done].
      * apply IH; [done|lia|done].
    + replace ((n * 10 + (byte_of c - 48)) mod 18446744073709551616)
        with (n * 10 + (byte_of c - 48) - 18446744073709551616).
      2:{ apply Z.mod_unique with (q := 1); lia. }
      destruct (Z.ltb_spec (n * 10 + (byte_of c - 48) - 18446744073709551616) (n * 10)); [|lia].
      simpl. destruct (Z.leb_spec z maxVal); [lia|done].
Qed.

Lemma parseUint_loop_nondigits maxVal s : forall n acc k,
  digits_value s acc = None -> parseUint_loop maxVal s n <> LoopDone k.
Proof.
  induction s as [|c s IH]; simpl; intros n acc k H; [done|].
  destruct (is_digit c); [|done].
  repeat case_match; try done. eapply IH, H.
Qed.

Lemma ParseUint_digits s bitSize z :
  2 <= effective_bits bitSize <= 64 -> s <> EmptyString ->
  digits_value s 0 = Some z ->
  ParseUint s bitSize =
    if z <=? 2 ^ effective_bits bitSize - 1 then (z, None)
    else (2 ^ effective_bits bitSize - 1, Some (rangeError "ParseUint" s)).
Proof.
  intros Hb Hs Hz. unfold ParseUint, effective_bits in *.
  destruct s as [|c s]; [done|].
  set (bs := if bitSize =? 0 then IntSize else bitSize) in *.
  assert (Hpow : 2 ^ bs <= 2 ^ 64) by (apply Z.pow_le_mono_r; lia).
  assert (Hpos : 0 < 2 ^ bs) by (apply Z.pow_pos_nonneg; lia).
  rewrite (parseUint_loop_digits _ _ 0 z); [|unfold maxUint64; lia|lia|done].
  by destruct (z <=? 2 ^ bs - 1).
Qed.

Lemma ParseUint_nondigits s bitSize :
  digits_value s 0 = None ->
  ParseUint s bitSize = (0, Some (syntaxError "ParseUint" s)) \/
  ParseUint s bitSize =
    (2 ^ effective_bits bitSize - 1, Some (rangeError "ParseUint" s)).
Proof.
  intros H. unfold ParseUint, effective_bits. destruct s as [|c s]; [by left|].
  pose proof (parseUint_loop_nondigits
    (2 ^ (if bitSize =? 0 then IntSize else bitSize) - 1) (String c s) 0 0) as Hl.
  destruct (parseUint_loop _ _ _); [by edestruct Hl|by left|by right].
Qed.

Lemma pow2_half bs : 2 <= bs -> 2 ^ bs = 2 * 2 ^ (bs - 1) /\ 2 <= 2 ^ (bs - 1).
Proof.
  intros Hbs. split.
  - rewrite <- Z.pow_succ_r by lia. f_equal. lia.
  - change 2 with (2 ^ 1) at 1. apply Z.pow_le_mono_r; lia.
Qed.

Lemma ParseInt_signed c rest s neg bitSize u :
  2 <= effective_bits bitSize <= 64 ->
  (if Ascii.eqb c "+" then (false, rest)
   else if Ascii.eqb c "-" then (true, rest) else (false, String c rest)) = (neg, s) ->
  s <> EmptyString ->
  digits_value s 0 = Some u ->
  ParseInt (String c rest) bitSize =
    match clampInt (effective_bits bitSize) (if neg then - u else u) with
    | (v, Some _) => (v, Some (rangeError "ParseInt" (String c rest)))
    | (v, None) => (v, None)
    end.
Proof.
  intros Hb Hsign Hs Hu.
  assert (0 <= u) by (by apply (digits_value_ge s 0)).
  unfold ParseInt. rewrite Hsign.
  rewrite (ParseUint_digits s bitSize u) by done.
  unfold effective_bits, clampInt in *.
  set (bs := if bitSize =? 0 then IntSize else bitSize) in *.
  destruct (pow2_half bs) as [Hp Hp2]; [lia|].
  destruct (Z.leb_spec u (2 ^ bs - 1)); simpl.
  - destruct neg; simpl.
    + destruct (Z.ltb_spec (2 ^ (bs - 1)) u), (Z.ltb_spec (- u) (- 2 ^ (bs - 1)));
        try lia; [done|].
      destruct (Z.ltb_spec (2 ^ (bs - 1) - 1) (- u)); [lia|done].
    + destruct (Z.leb_spec (2 ^ (bs - 1)) u), (Z.ltb_spec u (- 2 ^ (bs - 1)));
        try lia; simpl;
        destruct (Z.ltb_spec (2 ^ (bs - 1) - 1) u); try lia; done.
  - destruct neg; simpl.
    + destruct (Z.ltb_spec (2 ^ (bs - 1)) (2 ^ bs - 1)); [|lia].
      destruct (Z.ltb_spec (- u) (- 2 ^ (bs - 1))); [done|lia].
    + destruct (Z.leb_spec (2 ^ (bs - 1)) (2 ^ bs - 1)); [|lia]. simpl.
      destruct (Z.ltb_spec u (- 2 ^ (bs - 1))); [lia|].
      destruct (Z.ltb_spec (2 ^ (bs - 1) - 1) u); [done|lia].
Qed.

Lemma decimal_value_cases c rest :
  exists neg s,
    (if Ascii.eqb c "+" then (false, rest)
     else if Ascii.eqb c "-" then (true, rest) else (false, String c rest)) = (neg, s) /\
    decimal_value (String c rest) =
      match s with
      | EmptyString => None
      | _ => (fun u => if neg then - u else u) <$> digits_value s 0
      end.
Proof.
  simpl. destruct (Ascii.eqb c "+"); [|destruct (Ascii.eqb c "-")].
  - exists false, rest. split; [done|]. destruct rest; [done|].
    by destruct (digits_value _ _).
  - exists true, rest. split; [done|]. destruct rest; reflexivity.
  - exists false, (String c rest). split; [done|].
    simpl. destruct (is_digit c); [|done]. by destruct (digits_value _ _).
Qed.

Lemma ParseInt_decimal s bitSize z :
  2 <= effective_bits bitSize <= 64 ->
  decimal_value s = Some z ->
  ParseInt s bitSize =
    match clampInt (effective_bits bitSize) z with
    | (v, Some _) => (v, Some (rangeError "ParseInt" s))
    | (v, None) => (v, None)
    end.
Proof.
  intros Hb Hz. destruct s as [|c rest]; [done|].
  destruct (decimal_value_cases c rest) as (neg & s & Hsign & Hdec).
  rewrite Hdec in Hz. destruct s as [|c' s']; [done|].
  destruct (digits_value (String c' s') 0) as [u|] eqn:Hu; [|done].
  injection Hz as <-.
  by apply (ParseInt_signed c rest (String c' s') neg).
Qed.

Lemma ParseInt_not_decimal s bitSize :
  2 <= effective_bits bitSize <= 64 ->
  decimal_value s = None ->
  exists v k, ParseInt s bitSize = (v, Some (mkNumError "ParseInt" s k)).
Proof.
  intros Hb Hz. destruct s as [|c rest]; [by eexists _, _|].
  destruct (decimal_value_cases c rest) as (neg & s & Hsign & Hdec).
  rewrite Hdec in Hz. unfold ParseInt. rewrite Hsign.
  destruct s as [|c' s'].
  { simpl. by eexists _, _. }
  destruct (digits_value (String c' s') 0) as [u|] eqn:Hu; [done|].
  destruct (ParseUint_nondigits (String c' s') bitSize Hu) as [-> | ->].
  { simpl. by eexists _, _. }
  unfold effective_bits in *. simpl.
  set (bs := if bitSize =? 0 then IntSize else bitSize) in *.
  destruct (pow2_half bs) as [Hp Hp2]; [lia|].
  destruct neg; simpl.
  - destruct (Z.ltb_spec (2 ^ (bs - 1)) (2 ^ bs - 1)); [|lia]. by eexists _, _.
  - destruct (Z.leb_spec (2 ^ (bs - 1)) (2 ^ bs - 1)); [|lia]. by eexists _, _.
Qed.

Lemma formatBits_head fuel : forall u acc,
  0 <= u -> exists c rest, formatBits fuel u acc = String c rest /\ is_digit c = true.
Proof.
  induction fuel as [|f IH]; simpl; intros u acc Hu.
  - eexists _, _. split; [done|]. apply is_digit_digit_char, Z.mod_pos_bound. lia.
  - destruct (u <? 10).
    + eexists _, _. split; [done|]. apply is_digit_digit_char, Z.mod_pos_bound. lia.
    + apply IH. apply Z.div_pos; lia.
Qed.

Lemma digits_value_formatBits fuel : forall u acc,
  0 <= u < 10 ^ (Z.of_nat fuel + 1) ->
  digits_value (formatBits fuel u acc) 0 = digits_value acc u.
Proof.
  induction fuel as [|f IH]; intros u acc Hu.
  - change (10 ^ (Z.of_nat 0 + 1)) with 10 in Hu. simpl.
    rewrite is_digit_digit_char by (apply Z.mod_pos_bound; lia).
    rewrite byte_of_digit_char by (apply Z.mod_pos_bound; lia).
    rewrite Z.mod_small by lia. f_equal. lia.
  - simpl. destruct (Z.ltb_spec u 10).
    + simpl. rewrite is_digit_digit_char by (apply Z.mod_pos_bound; lia).
      rewrite byte_of_digit_char by (apply Z.mod_pos_bound; lia).
      rewrite Z.mod_small by lia. f_equal. lia.
    + rewrite IH.
      * simpl. rewrite is_digit_digit_char by (apply Z.mod_pos_bound; lia).
        rewrite byte_of_digit_char by (apply Z.mod_pos_bound; lia).
        f_equal. pose proof (Z.div_mod u 10). lia.
      * split; [apply Z.div_pos; lia|].
        apply Z.div_lt_upper_bound; [lia|].
        replace (Z.of_nat (S f) + 1) with (Z.succ (Z.of_nat f + 1)) in Hu by lia.
        rewrite Z.pow_succ_r in Hu by lia. lia.
Qed.

Lemma decimal_value_FormatInt i :
  - 10 ^ 20 < i < 10 ^ 20 -> decimal_value (FormatInt i) = Some i.
Proof.
  intros Hi. unfold FormatInt. destruct (Z.ltb_spec i 0).
  - destruct (formatBits_head 19 (- i) EmptyString) as (c & rest & Heq & Hc); [lia|].
    pose proof (digits_value_formatBits 19 (- i) EmptyString) as Hd.
    rewrite Heq in *.
    change (decimal_value (String "-" (String c rest)))
      with (Z.opp <$> digits_value (String c rest) 0).
    rewrite Hd by (simpl Z.of_nat; lia). simpl. f_equal. lia.
  - destruct (formatBits_head 19 i EmptyString) as (c & rest & Heq & Hc); [lia|].
    pose proof (digits_value_formatBits 19 i EmptyString) as Hd.
    rewrite Heq in *. unfold decimal_value.
    destruct (is_digit_not_sign c Hc) as [-> ->].
    rewrite Hd; [done|]. simpl Z.of_nat. lia.
Qed.

(** [ParseInt(FormatInt(i), 10, 32)] gives [i] back when [i] fits 32 bits. *)
Lemma ParseInt_FormatInt i :
  in_int 32 i -> ParseInt (FormatInt i) 32 = (i, None).
Proof.
  unfold in_int. intros Hi.
  rewrite (ParseInt_decimal _ 32 i).
  - unfold clampInt, effective_bits. simpl (if 32 =? 0 then _ else _).
    change (2 ^ (32 - 1)) with 2147483648 in *.
    destruct (Z.ltb_spec i (- (2147483648))); [lia|].
    destruct (Z.ltb_spec (2147483648 - 1) i); [lia|done].
  - unfold effective_bits, IntSize; simpl; lia.
  - apply decimal_value_FormatInt.
    change (2 ^ (32 - 1)) with 2147483648 in *. lia.
Qed.

(* ===================================================================== *)
(** ** Properties of the reflected aggregate                              *)
(* ===================================================================== *)

Lemma GetFields_TypeOf (v : Struct) : fst <$> TypeOf v = GetFields v.
Proof.
  unfold TypeOf, GetFields. rewrite <- list_fmap_compose.
  apply list_fmap_ext. by intros _ [f x] _.
Qed.

Lemma GetFields_zeroValue t : GetFields (zeroValue t) = fst <$> t.
Proof.
  unfold zeroValue, GetFields. rewrite <- list_fmap_compose.
  apply list_fmap_ext. by intros _ [f k] _.
Qed.

Lemma TypeOf_zeroValue t : TypeOf (zeroValue t) = t.
Proof.
  unfold zeroValue, TypeOf. rewrite <- list_fmap_compose.
  rewrite <- (list_fmap_id t) at 2.
  apply list_fmap_ext. by intros _ [f []] _.
Qed.

Lemma FieldByName_TypeOf (v : Struct) name :
  FieldByName (TypeOf v) name = kindOf <$> FieldByName v name.
Proof.
  induction v as [|[f x] v IH]; simpl; [done|].
  by destruct (String.eqb (Name f) name).
Qed.

Lemma FieldByName_elem {A} (v : list (StructField * A)) f x :
  NoDup (Name <$> (fst <$> v)) -> (f, x) ∈ v -> FieldByName v (Name f) = Some x.
Proof.
  induction v as [|[g y] v IH]; simpl; intros Hnd Hin.
  - by apply elem_of_nil in Hin.
  - apply NoDup_cons in Hnd as [Hg Hnd].
    apply elem_of_cons in Hin as [[= -> ->]|Hin].
    + by rewrite String.eqb_refl.
    + destruct (String.eqb_spec (Name g) (Name f)) as [Heq|_]; [|by apply IH].
      destruct Hg. rewrite Heq.
      apply list_elem_of_fmap. exists f. split; [done|].
      apply list_elem_of_fmap. by exists (f, x).
Qed.

Lemma FieldByName_Some {A} (v : list (StructField * A)) name x :
  FieldByName v name = Some x -> exists f, (f, x) ∈ v /\ Name f = name.
Proof.
  induction v as [|[g y] v IH]; simpl; [done|].
  destruct (String.eqb_spec (Name g) name) as [Heq|_].
  - intros [= ->]. exists g. split; [left|done].
  - intros (f & Hin & Hf)%IH. exists f. split; [by right|done].
Qed.

Lemma FieldByName_fields {A} (v : list (StructField * A)) f :
  f ∈ fst <$> v -> is_Some (FieldByName v (Name f)).
Proof.
  induction v as [|[g y] v IH]; simpl; intros Hin.
  - by apply elem_of_nil in Hin.
  - destruct (String.eqb_spec (Name g) (Name f)); [done|].
    apply elem_of_cons in Hin as [->|Hin]; [done|by apply IH].
Qed.

Lemma GetFields_SetField v name x : GetFields (SetField v name x) = GetFields v.
Proof.
  induction v as [|[g y] v IH]; simpl; [done|].
  destruct (String.eqb (Name g) name); simpl; [done|].
  f_equal. apply IH.
Qed.

Lemma TypeOf_SetField v name x y :
  FieldByName v name = Some y -> kindOf x = kindOf y ->
  TypeOf (SetField v name x) = TypeOf v.
Proof.
  induction v as [|[g z] v IH]; simpl; [done|].
  destruct (String.eqb (Name g) name); simpl.
  - intros [= ->] Hk. unfold prod_map. simpl. by rewrite Hk.
  - intros Hy Hk. f_equal. by apply IH.
Qed.

Lemma FieldByName_SetField_eq v name x :
  is_Some (FieldByName v name) -> FieldByName (SetField v name x) name = Some x.
Proof.
  induction v as [|[g z] v IH]; simpl; [by intros [? ?]|].
  destruct (String.eqb (Name g) name) eqn:Hg; simpl; rewrite Hg; [done|apply IH].
Qed.

Lemma FieldByName_SetField_ne v name name' x :
  name <> name' -> FieldByName (SetField v name x) name' = FieldByName v name'.
Proof.
  intros Hne. induction v as [|[g z] v IH]; simpl; [done|].
  destruct (String.eqb_spec (Name g) name) as [Hg|Hg]; simpl.
  - destruct (String.eqb_spec (Name g) name'); [congruence|done].
  - by destruct (String.eqb (Name g) name').
Qed.

(** Two struct values with the same fields, read alike through
    [FieldByName], are the same value. *)
Lemma Struct_ext (v a : Struct) :
  NoDup (Name <$> GetFields a) ->
  GetFields v = GetFields a ->
  (forall f, f ∈ GetFields a -> FieldByName v (Name f) = FieldByName a (Name f)) ->
  v = a.
Proof.
  revert v. induction a as [|[f x] a IH]; intros v Hnd Hfs Hread.
  - by destruct v.
  - destruct v as [|[g y] v]; [done|]. simpl in Hfs. injection Hfs as -> Hfs.
    apply NoDup_cons in Hnd as [Hf Hnd].
    pose proof (Hread f ltac:(left)) as Hx. simpl in Hx.
    rewrite String.eqb_refl in Hx. injection Hx as ->.
    f_equal. apply IH; [done|done|].
    intros h Hh. pose proof (Hread h ltac:(by right)) as Hr. simpl in Hr.
    destruct (String.eqb_spec (Name f) (Name h)) as [Heq|_]; [|done].
    destruct Hf. simpl. rewrite Heq. apply list_elem_of_fmap. by exists h.
Qed.

Lemma fieldOfKey_Some key fields f :
  fieldOfKey key fields = Some f -> f ∈ fields /\ Tag f = key.
Proof.
  unfold fieldOfKey. intros [Hin Heq]%find_some.
  split; [by apply list_elem_of_In|by apply String.eqb_eq].
Qed.

Lemma fieldOfKey_None key fields f :
  fieldOfKey key fields = None -> f ∈ fields -> Tag f <> key.
Proof.
  unfold fieldOfKey. intros Hnone Hin%list_elem_of_In.
  apply (find_none _ _ Hnone) in Hin. by apply String.eqb_neq.
Qed.

Lemma fieldOfKey_elem fields f :
  NoDup (Tag <$> fields) -> f ∈ fields -> fieldOfKey (Tag f) fields = Some f.
Proof.
  unfold fieldOfKey.
  induction fields as [|g fields IH]; simpl; intros Hnd Hin.
  - by apply elem_of_nil in Hin.
  - apply NoDup_cons in Hnd as [Hg Hnd].
    destruct (String.eqb_spec (Tag g) (Tag f)) as [Heq|Hne].
    + apply elem_of_cons in Hin as [->|Hin]; [done|].
      destruct Hg. rewrite Heq. apply list_elem_of_fmap. by exists f.
    + apply elem_of_cons in Hin as [->|Hin]; [done|by apply IH].
Qed.

Lemma WellFormed_Name_inj fields f g :
  WellFormed fields -> f ∈ fields -> g ∈ fields -> Name f = Name g -> f = g.
Proof.
  intros [Hnd _] Hf Hg Heq.
  apply list_elem_of_lookup in Hf as [i Hi], Hg as [j Hj].
  assert (i = j) as ->; [|congruence].
  eapply NoDup_lookup; [exact Hnd|..]; rewrite list_lookup_fmap.
  - by rewrite Hi.
  - rewrite Hj. simpl. by rewrite Heq.
Qed.

(* ===================================================================== *)
(** ** The mapper: [setSetting] and the two loops of [GetAllSetting]      *)
(* ===================================================================== *)

Lemma decode_kind k value x : decode k value = Some x -> kindOf x = k.
Proof.
  destruct k; simpl; [|by intros [= <-]|done].
  destruct (ParseInt value 32) as [n [e|]]; [done|by intros [= <-]].
Qed.

(** Typed fields round-trip through their string form. *)
Lemma decode_Sprint x : storable x -> decode (kindOf x) (Sprint x) = Some x.
Proof.
  destruct x as [n|s|t]; simpl; [|done..].
  intros Hn. by rewrite ParseInt_FormatInt.
Qed.

Lemma setSetting_not_field v key value :
  fieldOfKey key (GetFields v) = None -> setSetting v key value = (v, None).
Proof. unfold setSetting, fieldOfKey. by intros ->. Qed.

Lemma setSetting_decoded v key value f y x :
  fieldOfKey key (GetFields v) = Some f ->
  FieldByName v (Name f) = Some y ->
  decode (kindOf y) value = Some x ->
  setSetting v key value = (SetField v (Name f) x, None).
Proof.
  unfold setSetting, fieldOfKey. intros -> -> Hx.
  destruct y as [n|s|t]; simpl in Hx; [|by injection Hx as <-|done].
  destruct (ParseInt value 32) as [m [e|]]; [done|by injection Hx as <-].
Qed.

Lemma setSetting_undecoded v key value f y :
  fieldOfKey key (GetFields v) = Some f ->
  FieldByName v (Name f) = Some y ->
  decode (kindOf y) value = None ->
  exists err, setSetting v key value = (v, Some err) /\
    isTypeOrParseError err = true /\
    (kindOf y = KInt ->
     exists n e, ParseInt value 32 = (n, Some e) /\ err = ParseError e).
Proof.
  unfold setSetting, fieldOfKey. intros -> -> Hx.
  destruct y as [n|s|t]; simpl in Hx; [|done|].
  - destruct (ParseInt value 32) as [m [e|]]; [|done].
    eexists. split; [done|]. split; [done|]. intros _. by eexists _, _.
  - eexists. split; [done|]. split; [done|]. done.
Qed.

(** [setSetting] either leaves with an error and the aggregate as it was, or
    assigns the decoded string to the field the key is mapped to. *)
Lemma setSetting_cases v key value :
  (fieldOfKey key (GetFields v) = None /\ setSetting v key value = (v, None)) \/
  (exists f y, fieldOfKey key (GetFields v) = Some f /\
     FieldByName v (Name f) = Some y /\
     match decode (kindOf y) value with
     | Some x => setSetting v key value = (SetField v (Name f) x, None)
     | None => exists err, setSetting v key value = (v, Some err) /\
                 isTypeOrParseError err = true
     end).
Proof.
  destruct (fieldOfKey key (GetFields v)) as [f|] eqn:Hf.
  - right. apply fieldOfKey_Some in Hf as Hin. destruct Hin as [Hin _].
    destruct (FieldByName_fields v f Hin) as [y Hy].
    exists f, y. split; [done|]. split; [done|].
    destruct (decode (kindOf y) value) as [x|] eqn:Hx.
    + by apply (setSetting_decoded v key value f y).
    + destruct (setSetting_undecoded v key value f y) as (err & ? & ? & _); eauto.
  - left. split; [done|]. by apply setSetting_not_field.
Qed.

Lemma setSetting_error v key value v' err :
  setSetting v key value = (v', Some err) ->
  v' = v /\ isTypeOrParseError err = true.
Proof.
  destruct (setSetting_cases v key value) as [[_ ->]|(f & y & _ & _ & H)]; [done|].
  destruct (decode _ _); [by rewrite H|].
  destruct H as (e & -> & He). by intros [= <- <-].
Qed.

Lemma setSetting_TypeOf v key value v' err :
  setSetting v key value = (v', err) -> TypeOf v' = TypeOf v.
Proof.
  destruct (setSetting_cases v key value) as [[_ ->]|(f & y & _ & Hy & H)].
  - by intros [= <- <-].
  - destruct (decode _ _) as [x|] eqn:Hx.
    + rewrite H. intros [= <- <-].
      apply (TypeOf_SetField v (Name f) x y Hy). by apply decode_kind in Hx.
    + destruct H as (e & -> & _). by intros [= <- <-].
Qed.

Lemma setSetting_other_field v key value v' err name :
  setSetting v key value = (v', err) ->
  (forall f, fieldOfKey key (GetFields v) = Some f -> Name f <> name) ->
  FieldByName v' name = FieldByName v name.
Proof.
  destruct (setSetting_cases v key value) as [[_ ->]|(f & y & Hf & Hy & H)].
  - by intros [= <- <-].
  - intros Hset Hne. destruct (decode _ _) as [x|].
    + rewrite H in Hset. injection Hset as <- <-.
      apply FieldByName_SetField_ne. by apply Hne.
    + destruct H as (e & He & _). rewrite He in Hset. by injection Hset as <- <-.
Qed.

Lemma GetFields_of_type (v : Struct) t : TypeOf v = t -> GetFields v = fst <$> t.
Proof. intros <-. by rewrite GetFields_TypeOf. Qed.

Lemma kind_of_type (v : Struct) t name y :
  TypeOf v = t -> FieldByName v name = Some y -> FieldByName t name = Some (kindOf y).
Proof. intros <- Hy. by rewrite FieldByName_TypeOf, Hy. Qed.

Lemma value_of_type (v : Struct) t name k :
  TypeOf v = t -> FieldByName t name = Some k ->
  exists y, FieldByName v name = Some y /\ kindOf y = k.
Proof.
  intros <-. rewrite FieldByName_TypeOf.
  destruct (FieldByName v name) as [y|]; [|done]. intros [= <-]. by exists y.
Qed.

(** *** The loop over the stored rows *)

Lemma applySettings_app pre post v keyMap :
  applySettings (pre ++ post) v keyMap =
    match applySettings pre v keyMap with
    | (v', keyMap', None) => applySettings post v' keyMap'
    | failed => failed
    end.
Proof.
  revert v keyMap. induction pre as [|r pre IH]; intros v keyMap; simpl; [done|].
  destruct (setSetting v (Key r) (Value r)) as [v1 [e|]]; [done|apply IH].
Qed.

Lemma applySettings_TypeOf settings : forall v keyMap v' keyMap' err,
  applySettings settings v keyMap = (v', keyMap', err) -> TypeOf v' = TypeOf v.
Proof.
  induction settings as [|r rows IH]; simpl; intros v keyMap v' keyMap' err.
  - by intros [= <- <- <-].
  - destruct (setSetting v (Key r) (Value r)) as [v1 [e|]] eqn:Hset.
    + by intros [= <- <- <-].
    + intros Hrest%IH. rewrite Hrest. by apply setSetting_TypeOf in Hset.
Qed.

Lemma applySettings_error settings : forall v keyMap v' keyMap' err,
  applySettings settings v keyMap = (v', keyMap', Some err) ->
  isTypeOrParseError err = true.
Proof.
  induction settings as [|r rows IH]; simpl; intros v keyMap v' keyMap' err; [done|].
  destruct (setSetting v (Key r) (Value r)) as [v1 [e|]] eqn:Hset.
  - intros [= <- <- <-]. by apply setSetting_error in Hset as [_ ?].
  - apply IH.
Qed.

(** After the loop [keyMap] holds exactly the keys of the rows it went
    through, next to those it held before. *)
Lemma applySettings_keyMap settings : forall v keyMap v' keyMap' key,
  applySettings settings v keyMap = (v', keyMap', None) ->
  default false (keyMap' !! key) = true <->
  default false (keyMap !! key) = true \/ key ∈ Key <$> settings.
Proof.
  induction settings as [|r rows IH]; simpl; intros v keyMap v' keyMap' key.
  - intros [= <- <-]. split; [by left|].
    intros [?|Hin]; [done|by apply elem_of_nil in Hin].
  - destruct (setSetting v (Key r) (Value r)) as [v1 [e|]]; [done|].
    intros Hrest. rewrite (IH _ _ _ _ key Hrest), elem_of_cons.
    destruct (decide (Key r = key)) as [->|Hne].
    + rewrite lookup_insert_eq. simpl.
      split; [intros _; right; by left|intros _; by left].
    + rewrite lookup_insert_ne by done. split.
      * intros [?|?]; [by left|right; by right].
      * intros [?|[->|?]]; [by left|by destruct Hne|by right].
Qed.

Lemma applySettings_fails settings r : forall v keyMap,
  r ∈ settings ->
  (forall v0, TypeOf v0 = TypeOf v ->
     exists err, setSetting v0 (Key r) (Value r) = (v0, Some err)) ->
  exists v' keyMap' err, applySettings settings v keyMap = (v', keyMap', Some err).
Proof.
  induction settings as [|r0 rows IH]; simpl; intros v keyMap Hin Hbad.
  - by apply elem_of_nil in Hin.
  - destruct (setSetting v (Key r0) (Value r0)) as [v1 [e|]] eqn:Hset.
    + by eexists _, _, _.
    + apply elem_of_cons in Hin as [->|Hin].
      * destruct (Hbad v eq_refl) as [err Herr]. congruence.
      * apply IH; [done|]. intros v0 Hv0. apply Hbad.
        rewrite Hv0. by apply setSetting_TypeOf in Hset.
Qed.

Lemma applySettings_first_failure pre r post v keyMap v1 keyMap1 err :
  applySettings pre v keyMap = (v1, keyMap1, None) ->
  setSetting v1 (Key r) (Value r) = (v1, Some err) ->
  applySettings (pre ++ r :: post) v keyMap = (v1, keyMap1, Some err).
Proof.
  intros Hpre Hset. rewrite applySettings_app, Hpre. simpl. by rewrite Hset.
Qed.

(** *** The loop over the defaults *)

Lemma applyDefaults_TypeOf entries keyMap : forall v v' err,
  applyDefaults entries keyMap v = (v', err) -> TypeOf v' = TypeOf v.
Proof.
  induction entries as [|[k d] entries IH]; simpl; intros v v' err.
  - by intros [= <- <-].
  - destruct (default false (keyMap !! k)); [apply IH|].
    destruct (setSetting v k d) as [v1 [e|]] eqn:Hset.
    + by intros [= <- <-].
    + intros Hrest%IH. rewrite Hrest. by apply setSetting_TypeOf in Hset.
Qed.

Lemma applyDefaults_error entries keyMap : forall v v' err,
  applyDefaults entries keyMap v = (v', Some err) -> isTypeOrParseError err = true.
Proof.
  induction entries as [|[k d] entries IH]; simpl; intros v v' err; [done|].
  destruct (default false (keyMap !! k)); [apply IH|].
  destruct (setSetting v k d) as [v1 [e|]] eqn:Hset.
  - intros [= <- <-]. by apply setSetting_error in Hset as [_ ?].
  - apply IH.
Qed.

Section Defaults.

Hypothesis AllSettingT_wf : WellFormed (fst <$> AllSettingT).

(** A default for another key does not touch the field of [key]. *)
Lemma applyDefaults_other entries keyMap key field : forall v v',
  key ∉ entries.*1 ->
  TypeOf v = AllSettingT ->
  fieldOfKey key (fst <$> AllSettingT) = Some field ->
  applyDefaults entries keyMap v = (v', None) ->
  FieldByName v' (Name field) = FieldByName v (Name field).
Proof.
  induction entries as [|[k d] entries IH]; simpl; intros v v' Hkey Hv Hfield.
  - by intros [= <-].
  - apply not_elem_of_cons in Hkey as [Hne Hkey]. simpl in Hne.
    destruct (default false (keyMap !! k)); [by apply IH|].
    destruct (setSetting v k d) as [v1 [e|]] eqn:Hset; [done|].
    intros Hrest. rewrite (IH v1 v'); [|done|..|done|done].
    + apply (setSetting_other_field _ _ _ _ _ _ Hset).
      rewrite (GetFields_of_type v AllSettingT Hv). intros f Hf Heq.
      apply fieldOfKey_Some in Hf as [Hf Hk], Hfield as [Hfield Hkey'].
      assert (f = field) by by apply (WellFormed_Name_inj (fst <$> AllSettingT)).
      congruence.
    + rewrite <- Hv. by apply setSetting_TypeOf in Hset.
Qed.

(** A default whose key no row satisfied ends up, decoded, in the field of
    that key. *)
Lemma applyDefaults_default entries keyMap key value field kind : forall v v',
  NoDup entries.*1 ->
  (key, value) ∈ entries ->
  default false (keyMap !! key) = false ->
  TypeOf v = AllSettingT ->
  fieldOfKey key (fst <$> AllSettingT) = Some field ->
  FieldByName AllSettingT (Name field) = Some kind ->
  applyDefaults entries keyMap v = (v', None) ->
  exists x, decode kind value = Some x /\ FieldByName v' (Name field) = Some x.
Proof.
  induction entries as [|[k d] entries IH]; simpl;
    intros v v' Hnd Hin Hmap Hv Hfield Hkind.
  - by apply elem_of_nil in Hin.
  - apply NoDup_cons in Hnd as [Hk Hnd].
    apply elem_of_cons in Hin as [[= <- <-]|Hin].
    + rewrite Hmap.
      destruct (value_of_type v AllSettingT _ _ Hv Hkind) as (y & Hy & Hyk).
      rewrite <- (GetFields_of_type v AllSettingT Hv) in Hfield.
      destruct (decode kind value) as [x|] eqn:Hx.
      * rewrite (setSetting_decoded v key value field y x) by (by rewrite ?Hyk).
        intros Hrest. exists x. split; [done|].
        rewrite (applyDefaults_other entries keyMap key field
                   (SetField v (Name field) x) v' Hk); [..|done].
        -- apply FieldByName_SetField_eq. by rewrite Hy.
        -- rewrite <- Hv. apply (TypeOf_SetField _ _ _ y Hy).
           apply decode_kind in Hx. congruence.
        -- by rewrite <- (GetFields_of_type v AllSettingT Hv).
      * destruct (setSetting_undecoded v key value field y) as (e & -> & _);
          [done|done|by rewrite Hyk|done].
    + assert (k <> key).
      { intros ->. apply Hk. apply list_elem_of_fmap. by exists (key, value). }
      destruct (default false (keyMap !! k)); [by apply IH|].
      destruct (setSetting v k d) as [v1 [e|]] eqn:Hset; [done|].
      apply IH; try done. rewrite <- Hv. by apply setSetting_TypeOf in Hset.
Qed.

(** When every default fits the field it is meant for, the loop does not
    fail. *)
Lemma applyDefaults_succeeds entries keyMap : forall v,
  TypeOf v = AllSettingT ->
  (forall key value field kind,
     (key, value) ∈ entries ->
     fieldOfKey key (fst <$> AllSettingT) = Some field ->
     FieldByName AllSettingT (Name field) = Some kind ->
     is_Some (decode kind value)) ->
  exists v', applyDefaults entries keyMap v = (v', None).
Proof.
  induction entries as [|[k d] entries IH]; simpl; intros v Hv Hfit; [by eexists|].
  assert (Hfit' : forall key value field kind,
     (key, value) ∈ entries ->
     fieldOfKey key (fst <$> AllSettingT) = Some field ->
     FieldByName AllSettingT (Name field) = Some kind ->
     is_Some (decode kind value)).
  { intros key value field kind Hin. apply Hfit. by right. }
  destruct (default false (keyMap !! k)); [by apply IH|].
  destruct (setSetting_cases v k d) as [[_ ->]|(f & y & Hf & Hy & H)]; [by apply IH|].
  rewrite (GetFields_of_type v AllSettingT Hv) in Hf.
  destruct (Hfit k d f (kindOf y)) as [x Hx]; [by left|done|by eapply kind_of_type|].
  rewrite Hx in H. rewrite H. apply IH; [|done].
  rewrite <- Hv. apply (TypeOf_SetField _ _ _ y Hy). by apply decode_kind in Hx.
Qed.

End Defaults.

(* ===================================================================== *)
(** ** Reading the aggregate: [GetAllSetting]                             *)
(* ===================================================================== *)

(** [GetAllSetting] returns an aggregate or an error, never both and never
    neither. *)
Lemma GetAllSetting_result entries w :
  (exists allSetting, GetAllSetting entries w = (Some allSetting, None)) \/
  (exists err, GetAllSetting entries w = (None, Some err)).
Proof.
  unfold GetAllSetting.
  destruct (dbFind w) as [settings [e|]]; [by right; eexists|].
  destruct (applySettings _ _ _) as [[v keyMap] [e|]]; [by right; eexists|].
  destruct (applyDefaults _ _ _) as [v' [e|]]; [by right; eexists|by left; eexists].
Qed.

Lemma GetAllSetting_inv entries w allSetting :
  GetAllSetting entries w = (Some allSetting, None) ->
  exists v keyMap,
    fault OpFind = None /\
    applySettings (table w) (zeroValue AllSettingT) ∅ = (v, keyMap, None) /\
    applyDefaults entries keyMap v = (allSetting, None).
Proof.
  unfold GetAllSetting, dbFind.
  destruct (fault OpFind); [done|].
  destruct (applySettings _ _ _) as [[v keyMap] [e|]] eqn:Hrows; [done|].
  destruct (applyDefaults _ _ _) as [v' [e|]] eqn:Hdef; [done|].
  intros [= <-]. by exists v, keyMap.
Qed.

(** A read that fails on a row fails as a whole. *)
Lemma GetAllSetting_row_fails entries w r :
  r ∈ table w ->
  (forall v, TypeOf v = AllSettingT ->
     exists err, setSetting v (Key r) (Value r) = (v, Some err)) ->
  exists err, GetAllSetting entries w = (None, Some err) /\
    (fault OpFind = None -> isTypeOrParseError err = true).
Proof.
  intros Hin Hbad. unfold GetAllSetting, dbFind.
  destruct (fault OpFind) as [msg|]; [by eexists|].
  destruct (applySettings_fails (table w) r (zeroValue AllSettingT) ∅ Hin)
    as (v' & keyMap' & err & Hfail).
  { intros v0 Hv0. apply Hbad. by rewrite Hv0, TypeOf_zeroValue. }
  rewrite Hfail. exists err. split; [done|]. intros _.
  by apply applySettings_error in Hfail.
Qed.

Lemma GetAllSetting_first_failure entries w pre r post v keyMap err :
  fault OpFind = None ->
  table w = pre ++ r :: post ->
  applySettings pre (zeroValue AllSettingT) ∅ = (v, keyMap, None) ->
  setSetting v (Key r) (Value r) = (v, Some err) ->
  GetAllSetting entries w = (None, Some err).
Proof.
  intros Hfind Htable Hpre Hset. unfold GetAllSetting, dbFind.
  rewrite Hfind, Htable.
  by rewrite (applySettings_first_failure pre r post _ _ v keyMap err).
Qed.

(** A row of an integer field that [ParseInt] rejects makes [setSetting]
    fail, whatever the aggregate holds at that moment. *)
Lemma setSetting_int_rejected v key value field n e :
  TypeOf v = AllSettingT ->
  fieldOfKey key (fst <$> AllSettingT) = Some field ->
  FieldByName AllSettingT (Name field) = Some KInt ->
  ParseInt value 32 = (n, Some e) ->
  setSetting v key value = (v, Some (ParseError e)).
Proof.
  intros Hv Hfield Hkind Hparse.
  destruct (value_of_type v AllSettingT _ _ Hv Hkind) as (y & Hy & Hyk).
  rewrite <- (GetFields_of_type v AllSettingT Hv) in Hfield.
  destruct (setSetting_undecoded v key value field y) as (err & Hset & _ & Herr);
    [done|done|by rewrite Hyk; simpl; rewrite Hparse|].
  destruct (Herr Hyk) as (n' & e' & Hp' & ->). congruence.
Qed.


(** On an empty table, when every default fits the field declared for its
    key, the read succeeds. *)
Lemma GetAllSetting_empty_table entries w :
  WellFormed (fst <$> AllSettingT) ->
  entries ≡ₚ map_to_list defaultValueMap ->
  fault OpFind = None ->
  table w = [] ->
  (forall field kind value,
     (field, kind) ∈ AllSettingT -> defaultValueMap !! Tag field = Some value ->
     is_Some (decode kind value)) ->
  exists allSetting, GetAllSetting entries w = (Some allSetting, None).
Proof.
  intros Hwf Hperm Hfind Htable Hfit. unfold GetAllSetting, dbFind.
  rewrite Hfind, Htable. simpl.
  destruct (applyDefaults_succeeds entries ∅ (zeroValue AllSettingT)) as [v' Hv'].
  - apply TypeOf_zeroValue.
  - intros key value field kind Hin Hfield Hkind.
    rewrite Hperm in Hin. apply elem_of_map_to_list in Hin.
    apply fieldOfKey_Some in Hfield as [Hfield <-].
    apply (Hfit field kind value); [|done].
    apply FieldByName_Some in Hkind as (g & Hg & Hname).
    assert (g = field) as ->; [|done].
    apply (WellFormed_Name_inj (fst <$> AllSettingT)); try done.
    apply list_elem_of_fmap. by exists (g, kind).
  - rewrite Hv'. by exists v'.
Qed.

(** C4: a stored row whose key is mapped to an integer field and whose value
    is not a decimal numeral makes the whole read fail: no aggregate comes
    back, the error is one of the mapper's type or parse errors whenever the
    table itself could be read, and it is the parse error of that very row
    when the rows before it went through. *)
Theorem GetAllSetting_rejects_non_numeric entries w r field :
  r ∈ table w ->
  fieldOfKey (Key r) (fst <$> AllSettingT) = Some field ->
  FieldByName AllSettingT (Name field) = Some KInt ->
  decimal_value (Value r) = None ->
  exists err,
    GetAllSetting entries w = (None, Some err) /\
    (fault OpFind = None -> isTypeOrParseError err = true) /\
    (forall pre post v keyMap,
       fault OpFind = None -> table w = pre ++ r :: post ->
       applySettings pre (zeroValue AllSettingT) ∅ = (v, keyMap, None) ->
       exists n kind, ParseInt (Value r) 32 = (n, Some (mkNumError "ParseInt" (Value r) kind)) /\
                err = ParseError (mkNumError "ParseInt" (Value r) kind)).
Proof.
  intros Hin Hfield Hkind Hbad.
  destruct (ParseInt_not_decimal (Value r) 32) as (n & kind & Hparse);
    [unfold effective_bits, IntSize; simpl; lia|done|].
  assert (Hset : forall v, TypeOf v = AllSettingT ->
    setSetting v (Key r) (Value r) =
      (v, Some (ParseError (mkNumError "ParseInt" (Value r) kind)))).
  { intros v Hv. by apply (setSetting_int_rejected v _ _ field n). }
  destruct (GetAllSetting_row_fails entries w r Hin) as (err & Hget & Herr).
  { intros v Hv. eexists. by apply Hset. }
  exists err. split; [done|]. split; [done|].
  intros pre post v keyMap Hfind Htable Hpre.
  exists n, kind. split; [done|].
  assert (Hv : TypeOf v = AllSettingT).
  { apply applySettings_TypeOf in Hpre. by rewrite Hpre, TypeOf_zeroValue. }
  pose proof (GetAllSetting_first_failure entries w pre r post v keyMap _
                Hfind Htable Hpre (Hset v Hv)) as Hget'.
  congruence.
Qed.

(** C10: integer fields are parsed at 32 bits.  A stored row whose key is
    mapped to an integer field and whose value is a decimal numeral outside
    [-2^31, 2^31 - 1] is refused by [setSetting] with a range error, also
    when the number fits the 64 bits of a Go [int]; the whole read fails, and
    the error returned is that range error when the rows before it went
    through. *)
Theorem GetAllSetting_int32_range entries w r field z :
  r ∈ table w ->
  fieldOfKey (Key r) (fst <$> AllSettingT) = Some field ->
  FieldByName AllSettingT (Name field) = Some KInt ->
  decimal_value (Value r) = Some z ->
  ~ in_int 32 z ->
  (forall v, TypeOf v = AllSettingT ->
     setSetting v (Key r) (Value r) =
       (v, Some (ParseError (rangeError "ParseInt" (Value r))))) /\
  (exists err, GetAllSetting entries w = (None, Some err)) /\
  (forall pre post v keyMap,
     fault OpFind = None -> table w = pre ++ r :: post ->
     applySettings pre (zeroValue AllSettingT) ∅ = (v, keyMap, None) ->
     GetAllSetting entries w =
       (None, Some (ParseError (rangeError "ParseInt" (Value r))))).
Proof.
  intros Hin Hfield Hkind Hz Hrange.
  assert (Hparse : exists n,
    ParseInt (Value r) 32 = (n, Some (rangeError "ParseInt" (Value r)))).
  { rewrite (ParseInt_decimal _ 32 z); [|unfold effective_bits, IntSize; simpl; lia|done].
    unfold clampInt, effective_bits, in_int in *. simpl (if 32 =? 0 then _ else _).
    destruct (Z.ltb_spec z (- 2 ^ (32 - 1))); [by eexists|].
    destruct (Z.ltb_spec (2 ^ (32 - 1) - 1) z); [by eexists|lia]. }
  destruct Hparse as [n Hparse].
  assert (Hset : forall v, TypeOf v = AllSettingT ->
    setSetting v (Key r) (Value r) =
      (v, Some (ParseError (rangeError "ParseInt" (Value r))))).
  { intros v Hv. by apply (setSetting_int_rejected v _ _ field n). }
  split; [done|]. split.
  - destruct (GetAllSetting_row_fails entries w r Hin) as (err & Hget & _).
    + intros v Hv. eexists. by apply Hset.
    + by exists err.
  - intros pre post v keyMap Hfind Htable Hpre.
    apply (GetAllSetting_first_failure entries w pre r post v keyMap); try done.
    apply Hset. apply applySettings_TypeOf in Hpre. by rewrite Hpre, TypeOf_zeroValue.
Qed.

(* ===================================================================== *)
(** ** The table: fetching and saving one row                             *)
(* ===================================================================== *)

Lemma find_hasKey_Some key t r :
  find (hasKey key) t = Some r -> r ∈ t /\ Key r = key.
Proof.
  intros [Hin Hkey]%find_some. split; [by apply list_elem_of_In|].
  by apply String.eqb_eq.
Qed.

Lemma find_hasKey_None key t :
  find (hasKey key) t = None <-> key ∉ Key <$> t.
Proof.
  induction t as [|r t IH]; simpl.
  - split; [intros _; apply not_elem_of_nil|done].
  - unfold hasKey at 1. rewrite not_elem_of_cons.
    destruct (String.eqb_spec (Key r) key) as [Heq|Hne].
    + split; [done|]. by intros [? _].
    + rewrite IH. split; [by split|by intros [_ ?]].
Qed.

(** With unique keys, the row fetched for a key is the row of that key. *)
Lemma find_hasKey_elem t r :
  NoDup (Key <$> t) -> r ∈ t -> find (hasKey (Key r)) t = Some r.
Proof.
  induction t as [|r0 t IH]; simpl; intros Hnd Hin.
  - by apply elem_of_nil in Hin.
  - apply NoDup_cons in Hnd as [Hr0 Hnd]. unfold hasKey at 1.
    destruct (String.eqb_spec (Key r0) (Key r)) as [Heq|Hne].
    + apply elem_of_cons in Hin as [->|Hin]; [done|].
      destruct Hr0. rewrite Heq. apply list_elem_of_fmap. by exists r.
    + apply elem_of_cons in Hin as [->|Hin]; [done|by apply IH].
Qed.

Lemma keys_saveRow key value t : Key <$> saveRow key value t = Key <$> t.
Proof.
  induction t as [|r t IH]; simpl; [done|].
  destruct (hasKey key r) eqn:Hr; simpl.
  - apply String.eqb_eq in Hr. by rewrite Hr.
  - f_equal. apply IH.
Qed.

Lemma find_saveRow_same key value t :
  is_Some (find (hasKey key) t) ->
  find (hasKey key) (saveRow key value t) = Some (mkSetting key value).
Proof.
  induction t as [|r t IH]; simpl; [by intros [? ?]|].
  destruct (hasKey key r) eqn:Hr; simpl.
  - intros _. unfold hasKey. simpl. by rewrite String.eqb_refl.
  - rewrite Hr. apply IH.
Qed.

Lemma find_saveRow_other key value k t :
  k <> key -> find (hasKey k) (saveRow key value t) = find (hasKey k) t.
Proof.
  intros Hne. induction t as [|r t IH]; simpl; [done|].
  destruct (hasKey key r) eqn:Hr; simpl.
  - apply String.eqb_eq in Hr. unfold hasKey. simpl. rewrite Hr.
    by destruct (String.eqb_spec key k) as [?|_]; [congruence|].
  - by destruct (hasKey k r).
Qed.

Lemma find_append_same key value t :
  find (hasKey key) t = None ->
  find (hasKey key) (t ++ [mkSetting key value]) = Some (mkSetting key value).
Proof.
  induction t as [|r t IH]; simpl.
  - intros _. unfold hasKey. simpl. by rewrite String.eqb_refl.
  - destruct (hasKey key r); [done|apply IH].
Qed.

Lemma find_append_other key value k t :
  k <> key -> find (hasKey k) (t ++ [mkSetting key value]) = find (hasKey k) t.
Proof.
  intros Hne. induction t as [|r t IH]; simpl.
  - unfold hasKey. simpl. by destruct (String.eqb_spec key k) as [?|_]; [congruence|].
  - by destruct (hasKey k r).
Qed.

(** [saveSetting] either fails with the error of the storage call and leaves
    everything as it was, or leaves the row [(key, value)] behind, every
    other key untouched, and one upload dispatched. *)
Lemma saveSetting_cases key value w :
  (exists msg, saveSetting key value w = (Some (StorageError msg), w)) \/
  (exists w', saveSetting key value w = (None, w') /\
     find (hasKey key) (table w') = Some (mkSetting key value) /\
     (forall k, k <> key -> find (hasKey k) (table w') = find (hasKey k) (table w)) /\
     (NoDup (Key <$> table w) -> NoDup (Key <$> table w')) /\
     sink w' = sink w ++ [UploadKey key value]).
Proof.
  unfold saveSetting, getSetting.
  destruct (fault (OpFirst key)) as [msg|]; simpl; [by left; eexists|].
  destruct (find (hasKey key) (table w)) as [r|] eqn:Hrow; simpl.
  - unfold dbSave. destruct (fault (OpSave key)) as [msg|]; [by left; eexists|].
    right. eexists. split; [done|]. simpl. repeat split.
    + apply find_saveRow_same. by rewrite Hrow.
    + intros k Hk. by apply find_saveRow_other.
    + by rewrite keys_saveRow.
  - unfold dbCreate. destruct (fault (OpCreate key)) as [msg|]; [by left; eexists|].
    right. eexists. split; [done|]. simpl. repeat split.
    + by apply find_append_same.
    + intros k Hk. by apply find_append_other.
    + intros Hnd. rewrite fmap_app. simpl. apply NoDup_app. split; [done|].
      split; [|apply NoDup_singleton].
      intros k Hk ->%list_elem_of_singleton. by apply find_hasKey_None in Hrow.
Qed.

(** Whether [saveSetting] fails depends on the key, on the faults and on
    whether the key has a row; not on the value and not on the other rows. *)
Lemma saveSetting_error_indep key value value' w w' :
  (find (hasKey key) (table w) = None <-> find (hasKey key) (table w') = None) ->
  fst (saveSetting key value w) = fst (saveSetting key value' w').
Proof.
  unfold saveSetting, getSetting, dbSave, dbCreate. intros Hrow.
  destruct (fault (OpFirst key)) as [msg|]; simpl; [done|].
  destruct (find (hasKey key) (table w)) as [r|] eqn:Hw,
           (find (hasKey key) (table w')) as [r'|] eqn:Hw'; simpl.
  - by destruct (fault (OpSave key)).
  - by destruct Hrow as [_ Hrow']; discriminate Hrow'.
  - by destruct Hrow as [Hrow' _]; discriminate Hrow'.
  - by destruct (fault (OpCreate key)).
Qed.

Lemma saveSetting_failed key value w err w' :
  saveSetting key value w = (Some err, w') -> w' = w.
Proof.
  destruct (saveSetting_cases key value w) as [[msg ->]|(w1 & -> & _)]; [|done].
  by intros [= _ <-].
Qed.

(* ===================================================================== *)
(** ** The typed accessors                                                *)
(* ===================================================================== *)

(** C6: [getString] returns the value of the stored row when the key has a
    row, the entry of the default catalog when it has none, and an error
    that carries the key when the catalog has no entry either; [getInt]
    parses the string so obtained as a decimal integer and hands the parse
    failure on as its error.  All of it when the fetch itself does not fail;
    the error of a failed fetch is passed on by both. *)
Theorem getString_getInt_spec key w :
  NoDup (Key <$> table w) ->
  fault (OpFirst key) = None ->
  (forall r, r ∈ table w -> Key r = key -> getString key w = (Value r, None)) /\
  (forall value, key ∉ Key <$> table w -> defaultValueMap !! key = Some value ->
     getString key w = (value, None)) /\
  (key ∉ Key <$> table w -> defaultValueMap !! key = None ->
     getString key w =
       (EmptyString, Some (NewErrorf ("key <" +:+ key +:+ "> not in defaultValueMap")))) /\
  (forall str z, getString key w = (str, None) -> decimal_value str = Some z ->
     in_int 64 z -> getInt key w = (z, None)) /\
  (forall str, getString key w = (str, None) ->
     (decimal_value str = None \/ exists z, decimal_value str = Some z /\ ~ in_int 64 z) ->
     exists n kind, getInt key w = (n, Some (ParseError (mkNumError "Atoi" str kind)))) /\
  (forall str err, getString key w = (str, Some err) -> getInt key w = (0, Some err)).
Proof.
  intros Hnd Hfault. unfold getInt, getString, getSetting. rewrite Hfault.
  repeat split.
  - intros r Hin <-. by rewrite (find_hasKey_elem _ _ Hnd Hin).
  - intros value Hrow%find_hasKey_None Hdef. rewrite Hrow. simpl. by rewrite Hdef.
  - intros Hrow%find_hasKey_None Hdef. rewrite Hrow. simpl. by rewrite Hdef.
  - intros str z -> Hz Hrange. unfold Atoi.
    rewrite (ParseInt_decimal str 0 z); [|unfold effective_bits, IntSize; simpl; lia|done].
    unfold clampInt, effective_bits, in_int, IntSize in *. simpl (if 0 =? 0 then _ else _).
    destruct (Z.ltb_spec z (- 2 ^ (64 - 1))); [lia|].
    destruct (Z.ltb_spec (2 ^ (64 - 1) - 1) z); [lia|done].
  - intros str -> [Hbad|(z & Hz & Hrange)]; unfold Atoi.
    + destruct (ParseInt_not_decimal str 0) as (n & kind & ->);
        [unfold effective_bits, IntSize; simpl; lia|done|]. by eexists _, _.
    + rewrite (ParseInt_decimal str 0 z); [|unfold effective_bits, IntSize; simpl; lia|done].
      unfold clampInt, effective_bits, in_int, IntSize in *.
      simpl (if 0 =? 0 then _ else _).
      destruct (Z.ltb_spec z (- 2 ^ (64 - 1))); [by eexists _, _|].
      destruct (Z.ltb_spec (2 ^ (64 - 1) - 1) z); [by eexists _, _|lia].
  - by intros str err ->.
Qed.

Lemma HasPrefix_cons c s :
  HasPrefix (String c s) "/" = String.eqb (String c EmptyString) "/".
Proof. unfold HasPrefix. simpl. by destruct s. Qed.

Lemma HasPrefix_slash s : HasPrefix (String "/" s) "/" = true.
Proof. by rewrite HasPrefix_cons. Qed.

Lemma HasSuffix_append_slash s : HasSuffix (s +:+ "/") "/" = true.
Proof.
  unfold HasSuffix. apply andb_true_iff. split.
  - apply Nat.leb_le. induction s; simpl in *; lia.
  - apply String.eqb_eq. induction s as [|c s IH]; [done|].
    simpl String.length in *. simpl String.append.
    replace (S (String.length (s +:+ "/")) - 1)%nat
      with (S (String.length (s +:+ "/") - 1))%nat.
    + simpl. exact IH.
    + assert (1 <= String.length (s +:+ "/"))%nat; [|lia].
      clear. induction s; simpl; lia.
Qed.

Lemma HasPrefix_append s suffix :
  HasPrefix s "/" = true -> HasPrefix (s +:+ suffix) "/" = true.
Proof.
  destruct s as [|c s]; [done|].
  change (String c s +:+ suffix) with (String c (s +:+ suffix)).
  by rewrite !HasPrefix_cons.
Qed.

Lemma normalizeBasePath_slashes basePath :
  HasPrefix (normalizeBasePath basePath) "/" = true /\
  HasSuffix (normalizeBasePath basePath) "/" = true.
Proof.
  unfold normalizeBasePath.
  set (p := if negb (HasPrefix basePath "/") then _ else _).
  assert (Hp : HasPrefix p "/" = true).
  { unfold p. destruct (HasPrefix basePath "/") eqn:H; simpl; [done|].
    apply HasPrefix_slash. }
  destruct (HasSuffix p "/") eqn:Hs; simpl.
  - done.
  - split; [by apply HasPrefix_append|apply HasSuffix_append_slash].
Qed.

(** C7: whatever string is stored as the base path, [GetBasePath] returns
    it with a leading and a trailing ["/"]: ["api"] becomes ["/api/"],
    ["/x/"] stays ["/x/"], and the empty string becomes ["/"]. *)
Theorem GetBasePath_normalized w stored :
  getString "webBasePath" w = (stored, None) ->
  exists basePath,
    GetBasePath w = (basePath, None) /\
    HasPrefix basePath "/" = true /\
    HasSuffix basePath "/" = true /\
    (stored = "api"%string -> basePath = "/api/"%string) /\
    (stored = "/x/"%string -> basePath = "/x/"%string) /\
    (stored = EmptyString -> basePath = "/"%string).
Proof.
  intros Hget. exists (normalizeBasePath stored). unfold GetBasePath. rewrite Hget.
  destruct (normalizeBasePath_slashes stored) as [Hp Hs].
  repeat split; try done; by intros ->.
Qed.

(** C9: [GetSecret] returns the secret [getString] obtained, in every
    case; when that secret is the default generated at process start and the
    save goes through, the table holds afterwards a row for ["secret"] with
    that very value.  A save that fails is only logged and leaves the state
    as it was; a secret that is not the default is not written. *)
Theorem GetSecret_pins_default w secret err :
  getString "secret" w = (secret, err) ->
  fst (GetSecret w) = (secret, err) /\
  (secret = defaultSecret ->
   fst (saveSetting "secret" secret w) = None ->
   find (hasKey "secret") (table (snd (GetSecret w))) = Some (mkSetting "secret" secret)) /\
  (secret = defaultSecret ->
   fst (saveSetting "secret" secret w) <> None -> snd (GetSecret w) = w) /\
  (secret <> defaultSecret -> snd (GetSecret w) = w).
Proof.
  intros Hget. unfold GetSecret. rewrite Hget.
  assert (Hdef : default EmptyString (defaultValueMap !! "secret"%string) = defaultSecret)
    by reflexivity.
  rewrite Hdef.
  destruct (String.eqb_spec secret defaultSecret) as [Heq|Hne]; simpl.
  - split; [done|]. split; [|split; [|done]]; intros _ Hsave.
    + destruct (saveSetting_cases "secret" secret w) as [[msg Hs]|(w' & Hs & Hrow & _)];
        rewrite Hs in *; [done|done].
    + destruct (saveSetting_cases "secret" secret w) as [[msg Hs]|(w' & Hs & _)];
        rewrite Hs in *; [done|by destruct Hsave].
  - repeat split; done.
Qed.

(* ===================================================================== *)
(** ** Writing the aggregate: [UpdateAllSetting]                          *)
(* ===================================================================== *)

Lemma saveSetting_same_outcome key value w w1 :
  find (hasKey key) (table w1) = find (hasKey key) (table w) ->
  fst (saveSetting key value w1) = fst (saveSetting key value w).
Proof. intros Heq. apply saveSetting_error_indep. by rewrite Heq. Qed.

Lemma omap_ext_elem {A B} (f g : A -> option B) (l : list A) :
  (forall x, x ∈ l -> f x = g x) -> omap f l = omap g l.
Proof.
  unfold omap. induction l as [|x l IH]; intros Hfg; [done|]. simpl.
  rewrite (Hfg x) by left. rewrite IH; [done|].
  intros y Hy. apply Hfg. by right.
Qed.

Lemma saveFailures_cons f x slots w :
  saveFailures ((f, x) :: slots) w =
    match fst (saveSetting (Tag f) (Sprint x) w) with
    | Some err => err :: saveFailures slots w
    | None => saveFailures slots w
    end.
Proof. reflexivity. Qed.

Lemma savedUploads_cons f x slots w :
  savedUploads ((f, x) :: slots) w =
    match fst (saveSetting (Tag f) (Sprint x) w) with
    | Some _ => savedUploads slots w
    | None => UploadKey (Tag f) (Sprint x) :: savedUploads slots w
    end.
Proof.
  unfold savedUploads, omap. simpl. by destruct (fst (saveSetting _ _ w)).
Qed.

Lemma saveFailures_ext slots w w1 :
  (forall f x, (f, x) ∈ slots ->
     find (hasKey (Tag f)) (table w1) = find (hasKey (Tag f)) (table w)) ->
  saveFailures slots w1 = saveFailures slots w /\
  savedUploads slots w1 = savedUploads slots w.
Proof.
  intros Hsame. unfold saveFailures, savedUploads.
  split; apply omap_ext_elem; intros [f x] Hin;
    by rewrite (saveSetting_same_outcome (Tag f) (Sprint x) w w1) by by apply (Hsame f x).
Qed.

Lemma saveFields_cons a f fs errs w :
  saveFields a (f :: fs) errs w =
    match FieldByName a (Name f) with
    | None => (errs, w)
    | Some fieldV =>
        match saveSetting (Tag f) (Sprint fieldV) w with
        | (Some err, w') => saveFields a fs (errs ++ [err]) w'
        | (None, w') => saveFields a fs errs w'
        end
    end.
Proof. reflexivity. Qed.

(** The field loop, field by field: every failure is collected, in field
    order; every key that was saved holds its new row at the end; a key that
    failed, and any key outside the aggregate, is as it was. *)
Lemma saveFields_spec a slots : forall errs w,
  NoDup (Tag <$> (fst <$> slots)) ->
  (forall f x, (f, x) ∈ slots -> FieldByName a (Name f) = Some x) ->
  exists w',
    saveFields a (fst <$> slots) errs w = (errs ++ saveFailures slots w, w') /\
    (forall f x, (f, x) ∈ slots ->
       find (hasKey (Tag f)) (table w') =
         match fst (saveSetting (Tag f) (Sprint x) w) with
         | None => Some (rowOf (f, x))
         | Some _ => find (hasKey (Tag f)) (table w)
         end) /\
    (forall k, k ∉ Tag <$> (fst <$> slots) ->
       find (hasKey k) (table w') = find (hasKey k) (table w)) /\
    (NoDup (Key <$> table w) -> NoDup (Key <$> table w')) /\
    sink w' = sink w ++ savedUploads slots w.
Proof.
  induction slots as [|[f x] slots IH]; intros errs w Hnd Hread.
  - exists w. change (saveFailures [] w) with (@nil error).
    change (savedUploads [] w) with (@nil Upload). simpl.
    rewrite !app_nil_r. repeat split; try done.
    intros f x Hin. by apply elem_of_nil in Hin.
  - rewrite !fmap_cons in Hnd. apply NoDup_cons in Hnd as [Hf Hnd]. cbn [fst] in Hf.
    assert (Hread' : forall g y, (g, y) ∈ slots -> FieldByName a (Name g) = Some y).
    { intros g y Hin. apply Hread. by right. }
    assert (Hother : forall g y, (g, y) ∈ slots -> Tag g <> Tag f).
    { intros g y Hin Heq. apply Hf. rewrite <- Heq.
      apply list_elem_of_fmap. exists g. split; [done|].
      apply list_elem_of_fmap. by exists (g, y). }
    rewrite saveFailures_cons, savedUploads_cons, fmap_cons, saveFields_cons.
    cbn [fst]. rewrite (Hread f x) by left.
    destruct (saveSetting_cases (Tag f) (Sprint x) w)
      as [[msg Hsave]|(w1 & Hsave & Hrow & Hrest & Hkeys & Hsink)]; rewrite Hsave;
      cbn [fst snd].
    + destruct (IH (errs ++ [StorageError msg]) w Hnd Hread')
        as (w' & Hloop & Hsaved & Hout & Hnodup & Hup).
      exists w'. rewrite Hloop, <- app_assoc. split; [done|].
      split; [|split; [|done]].
      * intros g y [[= -> ->]|Hin]%elem_of_cons.
        -- rewrite Hsave. cbn [fst]. by apply Hout.
        -- by apply Hsaved.
      * rewrite !fmap_cons. intros k [Hk Hks]%not_elem_of_cons. by apply Hout.
    + destruct (IH errs w1 Hnd Hread') as (w' & Hloop & Hsaved & Hout & Hnodup & Hup).
      destruct (saveFailures_ext slots w w1) as [Hfail Hupl].
      { intros g y Hin. apply Hrest. by apply (Hother g y). }
      exists w'. rewrite Hloop, Hfail. split; [done|].
      split; [|split; [|split]].
      * intros g y [[= -> ->]|Hin]%elem_of_cons.
        -- rewrite Hsave. cbn [fst]. by rewrite (Hout (Tag f) Hf).
        -- rewrite (Hsaved g y Hin).
           rewrite (saveSetting_same_outcome (Tag g) (Sprint y) w w1)
             by (apply Hrest; by apply (Hother g y)).
           destruct (fst (saveSetting (Tag g) (Sprint y) w)); [|done].
           apply Hrest. by apply (Hother g y).
      * rewrite !fmap_cons. intros k [Hk Hks]%not_elem_of_cons.
        rewrite (Hout k Hks). by apply Hrest.
      * intros Hw. by apply Hnodup, Hkeys.
      * rewrite Hup, Hsink, Hupl, <- app_assoc. done.
Qed.

Lemma Combine_None errs : Combine errs = None <-> errs = [].
Proof. by destruct errs. Qed.

Lemma saveFailures_nil slots w :
  saveFailures slots w = [] ->
  forall f x, (f, x) ∈ slots -> fst (saveSetting (Tag f) (Sprint x) w) = None.
Proof.
  induction slots as [|[g y] slots IH]; intros Hnil f x Hin.
  - by apply elem_of_nil in Hin.
  - rewrite saveFailures_cons in Hnil.
    destruct (fst (saveSetting (Tag g) (Sprint y) w)) eqn:Hg; [done|].
    apply elem_of_cons in Hin as [[= -> ->]|Hin]; [done|by apply IH].
Qed.

(** [UpdateAllSetting] on an aggregate that passes validation. *)
Lemma UpdateAllSetting_valid given written w :
  CheckValid given = (written, None) ->
  WellFormed (GetFields written) ->
  exists w',
    UpdateAllSetting given w =
      (Combine (saveFailures written w),
       match saveFailures written w with
       | [] => uploadAllSettingsToFirestore written w'
       | _ => w'
       end) /\
    (forall f x, (f, x) ∈ written ->
       find (hasKey (Tag f)) (table w') =
         match fst (saveSetting (Tag f) (Sprint x) w) with
         | None => Some (rowOf (f, x))
         | Some _ => find (hasKey (Tag f)) (table w)
         end) /\
    (forall k, k ∉ Tag <$> GetFields written ->
       find (hasKey k) (table w') = find (hasKey k) (table w)) /\
    (NoDup (Key <$> table w) -> NoDup (Key <$> table w')) /\
    sink w' = sink w ++ savedUploads written w.
Proof.
  intros Hvalid [Hnames Htags]. unfold UpdateAllSetting. rewrite Hvalid.
  destruct (saveFields_spec written written [] w Htags)
    as (w' & Hloop & Hsaved & Hout & Hnodup & Hup).
  { intros f x Hin. by apply FieldByName_elem. }
  exists w'. unfold GetFields. rewrite Hloop. simpl.
  split; [|done]. by destruct (saveFailures written w).
Qed.

(** C3: an aggregate whose validation fails is not written: the error of
    [CheckValid] is returned and the state after the call, table and uploads
    alike, is the state before it. *)
Theorem UpdateAllSetting_invalid given w rejected err :
  CheckValid given = (rejected, Some err) ->
  UpdateAllSetting given w = (Some err, w).
Proof. intros Hvalid. unfold UpdateAllSetting. by rewrite Hvalid. Qed.

(** C5, as the code has it: after validation every field is saved on its
    own.  The error returned combines the storage errors of the keys that
    failed, in field order and as the storage layer gave them; a key that was
    saved holds its new row whatever happened to the others, a key that
    failed keeps what it had; and the bulk upload is dispatched exactly when
    no key failed, in which case the result is success. *)
Theorem UpdateAllSetting_partial_failure given written w :
  CheckValid given = (written, None) ->
  WellFormed (GetFields written) ->
  let result := UpdateAllSetting given w in
  fst result = Combine (saveFailures written w) /\
  (forall f x, (f, x) ∈ written ->
     fst (saveSetting (Tag f) (Sprint x) w) = None ->
     find (hasKey (Tag f)) (table (snd result)) = Some (rowOf (f, x))) /\
  (forall f x err, (f, x) ∈ written ->
     fst (saveSetting (Tag f) (Sprint x) w) = Some err ->
     err ∈ saveFailures written w /\
     find (hasKey (Tag f)) (table (snd result)) = find (hasKey (Tag f)) (table w)) /\
  (saveFailures written w = [] ->
     fst result = None /\
     sink (snd result) = sink w ++ savedUploads written w ++ [UploadAll written]) /\
  (saveFailures written w <> [] ->
     sink (snd result) = sink w ++ savedUploads written w).
Proof.
  intros Hvalid Hwf.
  destruct (UpdateAllSetting_valid given written w Hvalid Hwf)
    as (w' & Hupd & Hsaved & _ & _ & Hup).
  simpl. rewrite Hupd. cbn [fst snd].
  assert (Htable : table (match saveFailures written w with
                          | [] => uploadAllSettingsToFirestore written w'
                          | _ => w'
                          end) = table w')
    by (by destruct (saveFailures written w)).
  rewrite Htable. split; [done|]. split; [|split; [|split]].
  - intros f x Hin Hok. by rewrite (Hsaved f x Hin), Hok.
  - intros f x err Hin Herr. split; [|by rewrite (Hsaved f x Hin), Herr].
    clear -Hin Herr. induction written as [|[g y] slots IH].
    + by apply elem_of_nil in Hin.
    + rewrite saveFailures_cons. apply elem_of_cons in Hin as [[= <- <-]|Hin].
      * rewrite Herr. left.
      * destruct (fst (saveSetting (Tag g) (Sprint y) w)); [right|]; by apply IH.
  - intros Hnil. rewrite Hnil. split; [done|]. simpl. by rewrite Hup, <- app_assoc.
  - intros Hsome. by destruct (saveFailures written w).
Qed.

Lemma saveSetting_noFault key value w :
  (forall op, fault op = None) -> fst (saveSetting key value w) = None.
Proof.
  intros Hnone. unfold saveSetting, getSetting, dbCreate, dbSave.
  rewrite !Hnone. by destruct (find (hasKey key) (table w)).
Qed.

(** With a storage layer that does not fail, the field loop saves one
    [(key, value)] pair per field, in field order: the json tag of the field,
    whatever it is, and what [fmt.Sprint] prints for its value. *)
Lemma UpdateAllSetting_flatten given written w :
  CheckValid given = (written, None) ->
  WellFormed (GetFields written) ->
  (forall op, fault op = None) ->
  UpdateAllSetting given w =
    (None, snd (UpdateAllSetting given w)) /\
  sink (snd (UpdateAllSetting given w)) =
    sink w ++ ((fun slot => UploadKey (Key (rowOf slot)) (Value (rowOf slot))) <$> written)
           ++ [UploadAll written] /\
  (forall slot, slot ∈ written ->
     find (hasKey (Key (rowOf slot))) (table (snd (UpdateAllSetting given w))) =
       Some (rowOf slot)).
Proof.
  intros Hvalid Hwf Hnone.
  destruct (UpdateAllSetting_valid given written w Hvalid Hwf)
    as (w' & Hupd & Hsaved & _ & _ & Hup).
  assert (Hnil : saveFailures written w = []).
  { clear -Hnone. induction written as [|[f x] slots IH]; [done|].
    by rewrite saveFailures_cons, saveSetting_noFault. }
  rewrite Hupd, Hnil. cbn [fst snd Combine]. split; [done|]. split.
  - simpl. rewrite Hup, <- app_assoc. do 2 f_equal.
    clear -Hnone. induction written as [|[f x] slots IH]; [done|].
    rewrite savedUploads_cons, saveSetting_noFault by done.
    rewrite fmap_cons. by f_equal.
  - intros [f x] Hin. simpl. rewrite (Hsaved f x Hin).
    by rewrite saveSetting_noFault.
Qed.

(* ===================================================================== *)
(** ** Write, then read                                                   *)
(* ===================================================================== *)

Lemma WellFormed_Tag_inj fields f g :
  WellFormed fields -> f ∈ fields -> g ∈ fields -> Tag f = Tag g -> f = g.
Proof.
  intros [_ Htags] Hf Hg Heq.
  pose proof (fieldOfKey_elem fields f Htags Hf) as H1.
  pose proof (fieldOfKey_elem fields g Htags Hg) as H2.
  rewrite Heq in H1. congruence.
Qed.

Lemma same_fields_of_type (v a : Struct) : TypeOf v = TypeOf a -> GetFields v = GetFields a.
Proof. intros Ht. by rewrite <- !GetFields_TypeOf, Ht. Qed.

(** Rows that hold the strings of the aggregate [a] rebuild [a], field by
    field: once the key of a field has been seen, the field holds the value
    it has in [a]. *)
Lemma applySettings_written a settings : forall v keyMap,
  WellFormed (GetFields a) ->
  (forall f x, (f, x) ∈ a -> storable x) ->
  TypeOf v = TypeOf a ->
  (forall r f x, r ∈ settings -> (f, x) ∈ a -> Tag f = Key r -> Value r = Sprint x) ->
  (forall f x, (f, x) ∈ a -> default false (keyMap !! Tag f) = true ->
     FieldByName v (Name f) = Some x) ->
  exists v' keyMap',
    applySettings settings v keyMap = (v', keyMap', None) /\
    TypeOf v' = TypeOf a /\
    (forall f x, (f, x) ∈ a -> default false (keyMap' !! Tag f) = true ->
       FieldByName v' (Name f) = Some x).
Proof.
  induction settings as [|r rows IH]; intros v keyMap Hwf Hstor Hty Hrows Hinv.
  - by exists v, keyMap.
  - assert (Hrows' : forall r0 f x, r0 ∈ rows -> (f, x) ∈ a -> Tag f = Key r0 ->
                       Value r0 = Sprint x).
    { intros r0 f x Hin. apply Hrows. by right. }
    pose proof (same_fields_of_type v a Hty) as Hfields.
    simpl.
    destruct (setSetting_cases v (Key r) (Value r)) as [[Hnone ->]|(f0 & y & Hf0 & Hy & Hset)].
    + apply IH; try done.
      intros f x Hin Hmap. apply Hinv; [done|].
      rewrite lookup_insert_ne in Hmap; [done|].
      intros Heq. eapply fieldOfKey_None; [exact Hnone| |exact (eq_sym Heq)].
      rewrite Hfields. apply list_elem_of_fmap. by exists (f, x).
    + rewrite Hfields in Hf0. apply fieldOfKey_Some in Hf0 as [Hf0 Htag].
      apply list_elem_of_fmap in Hf0 as Hslot. destruct Hslot as ([f0' x0] & Heq & Hslot).
      simpl in Heq. subst f0'.
      pose proof (FieldByName_elem a f0 x0 (proj1 Hwf) Hslot) as Hx0.
      assert (Hkind : kindOf y = kindOf x0).
      { pose proof (FieldByName_TypeOf v (Name f0)) as H1.
        pose proof (FieldByName_TypeOf a (Name f0)) as H2.
        rewrite Hty, H2, Hx0, Hy in H1. simpl in H1. congruence. }
      assert (Hval : Value r = Sprint x0) by (apply (Hrows r f0 x0); [by left|done..]).
      rewrite Hkind, Hval, decode_Sprint in Hset by (by apply (Hstor f0)).
      rewrite Hval, Hset. apply IH; try done.
      * rewrite <- Hty. by apply (TypeOf_SetField v (Name f0) x0 y).
      * intros f x Hin Hmap.
        assert (Hf : f ∈ GetFields a) by (apply list_elem_of_fmap; by exists (f, x)).
        destruct (decide (Tag f = Key r)) as [Heq|Hne].
        -- assert (f = f0) as -> by (apply (WellFormed_Tag_inj (GetFields a)); congruence).
           pose proof (FieldByName_elem a f0 x (proj1 Hwf) Hin) as Hx.
           assert (x = x0) as -> by congruence.
           apply FieldByName_SetField_eq. by rewrite Hy.
        -- rewrite lookup_insert_ne in Hmap by done.
           rewrite FieldByName_SetField_ne; [by apply Hinv|].
           intros Hname. apply Hne. rewrite <- Htag. f_equal. symmetry.
           by apply (WellFormed_Name_inj (GetFields a)).
Qed.

(** When every key of the aggregate has been satisfied by a row, the
    defaults change nothing. *)
Lemma applyDefaults_covered entries keyMap v :
  (forall f, f ∈ GetFields v -> default false (keyMap !! Tag f) = true) ->
  applyDefaults entries keyMap v = (v, None).
Proof.
  intros Hcov. induction entries as [|[k d] entries IH]; simpl; [done|].
  destruct (default false (keyMap !! k)) eqn:Hk; [done|].
  rewrite setSetting_not_field; [done|].
  destruct (fieldOfKey k (GetFields v)) as [f|] eqn:Hf; [|done].
  apply fieldOfKey_Some in Hf as [Hf <-]. rewrite (Hcov f Hf) in Hk. done.
Qed.

(** C1: an aggregate that [UpdateAllSetting] wrote without error is what
    the next [GetAllSetting] returns, field for field, whether the keys had
    rows before the write (update path of [saveSetting]) or not (insert
    path).  The aggregate is the one validation left; its integer fields lie
    within the 32 bits the read parses, which is what a port range gives. *)
Theorem UpdateAllSetting_GetAllSetting_roundtrip entries given written w w' :
  CheckValid given = (written, None) ->
  TypeOf written = AllSettingT ->
  WellFormed (GetFields written) ->
  Forall (fun slot => storable (snd slot)) written ->
  NoDup (Key <$> table w) ->
  fault OpFind = None ->
  UpdateAllSetting given w = (None, w') ->
  GetAllSetting entries w' = (Some written, None).
Proof.
  intros Hvalid Hty Hwf Hall Hkeys Hfind Hupd.
  assert (Hstor : forall f x, (f, x) ∈ written -> storable x).
  { intros f x Hin. by apply (proj1 (Forall_forall _ _) Hall (f, x)). }
  destruct (UpdateAllSetting_valid given written w Hvalid Hwf)
    as (w1 & Heq & Hsaved & _ & Hnodup & _).
  rewrite Hupd in Heq. injection Heq as Hnone Hw'.
  symmetry in Hnone. apply Combine_None in Hnone. rewrite Hnone in Hw'.
  assert (Htable : table w' = table w1) by (by subst w').
  pose proof (saveFailures_nil written w Hnone) as Hok.
  assert (Hrow : forall f x, (f, x) ∈ written ->
                   find (hasKey (Tag f)) (table w') = Some (rowOf (f, x))).
  { intros f x Hin. by rewrite Htable, (Hsaved f x Hin), (Hok f x Hin). }
  assert (Hnd' : NoDup (Key <$> table w')) by (rewrite Htable; by apply Hnodup).
  destruct (applySettings_written written (table w') (zeroValue AllSettingT) ∅)
    as (v & keyMap & Happly & Hv & Hinv); [done|done|..].
  - by rewrite TypeOf_zeroValue.
  - intros r f x Hr Hin Htag.
    pose proof (find_hasKey_elem _ _ Hnd' Hr) as Hfound.
    rewrite <- Htag, (Hrow f x Hin) in Hfound. by injection Hfound as <-.
  - intros f x _ Hmap. by rewrite lookup_empty in Hmap.
  - assert (Hcov : forall f, f ∈ GetFields written -> default false (keyMap !! Tag f) = true).
    { intros f Hf. apply (applySettings_keyMap _ _ _ _ _ (Tag f) Happly). right.
      apply list_elem_of_fmap in Hf as ([f' x] & -> & Hin). simpl.
      destruct (find_hasKey_Some _ _ _ (Hrow f' x Hin)) as [Hr _].
      apply list_elem_of_fmap. by exists (rowOf (f', x)). }
    assert (v = written) as ->.
    { apply Struct_ext; [apply Hwf|by apply same_fields_of_type|].
      intros f Hf. apply list_elem_of_fmap in Hf as Hslot.
      destruct Hslot as ([f' x] & -> & Hin). simpl.
      rewrite (Hinv f' x Hin (Hcov _ Hf)).
      symmetry. by apply FieldByName_elem; [apply Hwf|]. }
    unfold GetAllSetting, dbFind. rewrite Hfind, Happly.
    by rewrite applyDefaults_covered.
Qed.

(* ===================================================================== *)
(** ** Single keys: save, read back, reset                                *)
(* ===================================================================== *)

Lemma saveSetting_ok_fetch key value w :
  fst (saveSetting key value w) = None -> fault (OpFirst key) = None.
Proof.
  unfold saveSetting, getSetting.
  by destruct (fault (OpFirst key)).
Qed.

Lemma getString_same_row key w w' :
  find (hasKey key) (table w') = find (hasKey key) (table w) ->
  getString key w' = getString key w.
Proof. unfold getString, getSetting. by intros ->. Qed.

Lemma getString_row key value w :
  fault (OpFirst key) = None ->
  find (hasKey key) (table w) = Some (mkSetting key value) ->
  getString key w = (value, None).
Proof. unfold getString, getSetting. by intros -> ->. Qed.

Lemma saveSetting_read_back key value w :
  fst (saveSetting key value w) = None ->
  getString key (snd (saveSetting key value w)) = (value, None).
Proof.
  intros Hok. pose proof (saveSetting_ok_fetch key value w Hok) as Hfetch.
  destruct (saveSetting_cases key value w) as [[msg Hs]|(w' & Hs & Hrow & _)];
    rewrite Hs in *; [done|].
  by apply getString_row.
Qed.

(** X1: a value saved under a key is the value [getString] returns for that
    key afterwards, whatever the key held before and whatever the default
    catalog says; the answer for every other key is what it was. *)
Theorem saveSetting_then_getString key value w :
  fst (saveSetting key value w) = None ->
  getString key (snd (saveSetting key value w)) = (value, None) /\
  (forall key', key' <> key ->
     getString key' (snd (saveSetting key value w)) = getString key' w).
Proof.
  intros Hok. split; [by apply saveSetting_read_back|].
  intros key' Hne. apply getString_same_row.
  destruct (saveSetting_cases key value w) as [[msg Hs]|(w' & Hs & _ & Hrest & _)];
    rewrite Hs in *; [done|].
  by apply Hrest.
Qed.

(** The keys of the table after [saveSetting]: as before when the key has a
    row or the call fails, one more at the end when a row is inserted. *)
Lemma saveSetting_keys key value w :
  Key <$> table (snd (saveSetting key value w)) =
    if decide (key ∈ Key <$> table w) then Key <$> table w
    else match fst (saveSetting key value w) with
         | None => (Key <$> table w) ++ [key]
         | Some _ => Key <$> table w
         end.
Proof.
  unfold saveSetting, getSetting, dbSave, dbCreate.
  destruct (fault (OpFirst key)) as [msg|]; simpl.
  { by destruct (decide _). }
  destruct (find (hasKey key) (table w)) as [r|] eqn:Hrow; simpl.
  - assert (key ∈ Key <$> table w).
    { apply find_hasKey_Some in Hrow as [Hin <-]. apply list_elem_of_fmap. by exists r. }
    rewrite decide_True by done.
    destruct (fault (OpSave key)); simpl; [done|apply keys_saveRow].
  - apply find_hasKey_None in Hrow. rewrite decide_False by done.
    destruct (fault (OpCreate key)); simpl; [done|].
    by rewrite fmap_app.
Qed.

Lemma saveSetting_NoDup key value w :
  NoDup (Key <$> table w) -> NoDup (Key <$> table (snd (saveSetting key value w))).
Proof.
  intros Hnd.
  destruct (saveSetting_cases key value w) as [[msg ->]|(w' & -> & _ & _ & Hkeys & _)];
    [done|by apply Hkeys].
Qed.

Lemma saveFields_NoDup v fields : forall errs w,
  NoDup (Key <$> table w) ->
  NoDup (Key <$> table (snd (saveFields v fields errs w))).
Proof.
  induction fields as [|f fields IH]; intros errs w Hnd; [done|].
  rewrite saveFields_cons. destruct (FieldByName v (Name f)) as [x|]; [|done].
  pose proof (saveSetting_NoDup (Tag f) (Sprint x) w Hnd) as Hnd'.
  destruct (saveSetting (Tag f) (Sprint x) w) as [[e|] w1]; by apply IH.
Qed.

Lemma UpdateAllSetting_table given w :
  table (snd (UpdateAllSetting given w)) =
    match CheckValid given with
    | (_, Some _) => table w
    | (written, None) => table (snd (saveFields written (GetFields written) [] w))
    end.
Proof.
  unfold UpdateAllSetting. destruct (CheckValid given) as [written [e|]]; [done|].
  destruct (saveFields written (GetFields written) [] w) as [errs w1]. simpl.
  by destruct (length errs =? 0)%nat.
Qed.

(** X2: the service never gives a key a second row.  [saveSetting] leaves
    the keys of the table as they are when the key has a row, and adds the
    key once, at the end, when it inserts; so a table with unique keys has
    unique keys after [saveSetting], [UpdateAllSetting], [GetSecret] and
    [ResetSettings], whether the storage calls fail or not. *)
Theorem service_keeps_keys_unique w :
  NoDup (Key <$> table w) ->
  (forall key value,
     NoDup (Key <$> table (snd (saveSetting key value w))) /\
     (key ∈ Key <$> table w ->
      Key <$> table (snd (saveSetting key value w)) = Key <$> table w) /\
     (key ∉ Key <$> table w -> fst (saveSetting key value w) = None ->
      Key <$> table (snd (saveSetting key value w)) = (Key <$> table w) ++ [key])) /\
  (forall given, NoDup (Key <$> table (snd (UpdateAllSetting given w)))) /\
  NoDup (Key <$> table (snd (GetSecret w))) /\
  NoDup (Key <$> table (snd (ResetSettings w))).
Proof.
  intros Hnd. split; [|split; [|split]].
  - intros key value. split; [by apply saveSetting_NoDup|].
    rewrite saveSetting_keys. split.
    + intros Hin. by rewrite decide_True.
    + intros Hout ->. by rewrite decide_False.
  - intros given. rewrite UpdateAllSetting_table.
    destruct (CheckValid given) as [written [e|]]; [done|by apply saveFields_NoDup].
  - unfold GetSecret. destruct (getString "secret" w) as [secret err].
    destruct (String.eqb secret _); [by apply saveSetting_NoDup|done].
  - unfold ResetSettings, dbDelete. destruct (fault OpDelete); simpl; [done|].
    apply NoDup_nil_2.
Qed.

Lemma Atoi_Itoa i : in_int 64 i -> Atoi (Itoa i) = (i, None).
Proof.
  unfold in_int, Atoi, Itoa. change (2 ^ (64 - 1)) with 9223372036854775808.
  intros Hi.
  rewrite (ParseInt_decimal _ 0 i);
    [|unfold effective_bits, IntSize; simpl; lia|apply decimal_value_FormatInt; lia].
  unfold clampInt, effective_bits, IntSize. simpl (if 0 =? 0 then _ else _).
  change (2 ^ (64 - 1)) with 9223372036854775808.
  destruct (Z.ltb_spec i (- (9223372036854775808))); [lia|].
  destruct (Z.ltb_spec (9223372036854775808 - 1) i); [lia|done].
Qed.

Lemma ParseInt_out_of_range s z :
  decimal_value s = Some z -> ~ in_int 32 z ->
  exists n, ParseInt s 32 = (n, Some (rangeError "ParseInt" s)).
Proof.
  intros Hz Hrange.
  rewrite (ParseInt_decimal _ 32 z); [|unfold effective_bits, IntSize; simpl; lia|done].
  unfold clampInt, effective_bits, in_int in *. simpl (if 32 =? 0 then _ else _).
  destruct (Z.ltb_spec z (- 2 ^ (32 - 1))); [by eexists|].
  destruct (Z.ltb_spec (2 ^ (32 - 1) - 1) z); [by eexists|lia].
Qed.

(** X3: [setInt] and [getInt] round-trip every Go [int]: the number saved is
    the number read back, at the full 64 bits; [SetPort] and [GetPort] are
    the instance for ["webPort"]. *)
Theorem setInt_then_getInt key value w :
  in_int 64 value ->
  fst (setInt key value w) = None ->
  getInt key (snd (setInt key value w)) = (value, None) /\
  (key = "webPort"%string -> GetPort (snd (SetPort value w)) = (value, None)).
Proof.
  intros Hrange Hok. unfold setInt, setString in *.
  assert (Hget : getInt key (snd (saveSetting key (Itoa value) w)) = (value, None)).
  { unfold getInt.
    rewrite (saveSetting_read_back key (Itoa value) w Hok).
    by rewrite Atoi_Itoa. }
  split; [done|]. intros ->. exact Hget.
Qed.

(** X4: [SetPort] validates nothing.  A port beyond 32 bits is stored and
    [GetPort] returns it, but from then on [GetAllSetting] fails, since it
    parses the same row at 32 bits. *)
Theorem SetPort_unchecked entries port w field :
  in_int 64 port ->
  ~ in_int 32 port ->
  fieldOfKey "webPort" (fst <$> AllSettingT) = Some field ->
  FieldByName AllSettingT (Name field) = Some KInt ->
  fst (SetPort port w) = None ->
  GetPort (snd (SetPort port w)) = (port, None) /\
  exists err, GetAllSetting entries (snd (SetPort port w)) = (None, Some err).
Proof.
  intros H64 H32 Hfield Hkind Hok. unfold SetPort, GetPort, setInt, setString in *.
  split.
  - unfold getInt. rewrite (saveSetting_read_back "webPort" (Itoa port) w Hok).
    by rewrite Atoi_Itoa.
  - destruct (saveSetting_cases "webPort" (Itoa port) w)
      as [[msg Hs]|(w' & Hs & Hrow & _)]; rewrite Hs in *; [done|]. simpl.
    apply find_hasKey_Some in Hrow as [Hin _].
    destruct (ParseInt_out_of_range (Itoa port) port) as [n Hparse]; [|done|].
    { apply decimal_value_FormatInt. unfold in_int in H64.
      change (2 ^ (64 - 1)) with 9223372036854775808 in H64. lia. }
    destruct (GetAllSetting_row_fails entries w' _ Hin) as (err & Hget & _); [|by exists err].
    intros v Hv. eexists. by apply (setSetting_int_rejected v _ _ field n).
Qed.

(** X5: [ResetSettings] empties the table and dispatches one upload when
    the delete goes through; from then on every read is the read of an empty
    table: [GetAllSetting] returns what it returns without rows, and
    [getString] answers with the default catalog.  When the delete fails the
    error is returned and nothing has changed. *)
Theorem ResetSettings_then_read w :
  (fst (ResetSettings w) = None ->
     table (snd (ResetSettings w)) = [] /\
     sink (snd (ResetSettings w)) =
       sink w ++ [UploadKey "reset_settings" "all_settings_reset"] /\
     (forall entries,
        GetAllSetting entries (snd (ResetSettings w)) = GetAllSetting entries emptyWorld) /\
     (forall key value,
        fault (OpFirst key) = None -> defaultValueMap !! key = Some value ->
        getString key (snd (ResetSettings w)) = (value, None))) /\
  (forall err, fst (ResetSettings w) = Some err -> snd (ResetSettings w) = w).
Proof.
  unfold ResetSettings, dbDelete.
  destruct (fault OpDelete) as [msg|]; simpl; [by split|].
  split; [|done]. intros _. repeat split.
  intros key value Hfetch Hdef. unfold getString, getSetting. simpl.
  by rewrite Hfetch, Hdef.
Qed.

(* ===================================================================== *)
(** ** More on the read: what the rows and the defaults do to a field     *)
(* ===================================================================== *)

Lemma setSetting_GetFields v key value v' err :
  setSetting v key value = (v', err) -> GetFields v' = GetFields v.
Proof. intros Hset. apply same_fields_of_type. by apply setSetting_TypeOf in Hset. Qed.

(** Two [keyMap]s that agree on the json tags of the aggregate. *)
Lemma applySettings_filter settings : forall v keyMap keyMap0,
  GetFields v = fst <$> AllSettingT ->
  (forall k, is_Some (fieldOfKey k (fst <$> AllSettingT)) ->
     default false (keyMap !! k) = default false (keyMap0 !! k)) ->
  exists v' keyMap' keyMap0' err,
    applySettings settings v keyMap = (v', keyMap', err) /\
    applySettings (List.filter knownRow settings) v keyMap0 = (v', keyMap0', err) /\
    GetFields v' = fst <$> AllSettingT /\
    (forall k, is_Some (fieldOfKey k (fst <$> AllSettingT)) ->
       default false (keyMap' !! k) = default false (keyMap0' !! k)).
Proof.
  induction settings as [|r rows IH]; intros v keyMap keyMap0 Hfields Hagree.
  - by exists v, keyMap, keyMap0, None.
  - simpl. unfold knownRow at 1.
    destruct (fieldOfKey (Key r) (fst <$> AllSettingT)) as [f|] eqn:Hf.
    + simpl. destruct (setSetting v (Key r) (Value r)) as [v1 [e|]] eqn:Hset.
      * by exists v, keyMap, keyMap0, (Some e).
      * apply IH.
        -- by rewrite (setSetting_GetFields _ _ _ _ _ Hset).
        -- intros k Hk. destruct (decide (Key r = k)) as [->|Hne].
           ++ by rewrite !lookup_insert_eq.
           ++ rewrite !lookup_insert_ne by done. by apply Hagree.
    + rewrite setSetting_not_field by (by rewrite Hfields).
      apply IH; [done|]. intros k Hk.
      rewrite lookup_insert_ne; [by apply Hagree|].
      intros <-. rewrite Hf in Hk. by destruct Hk.
Qed.

Lemma applyDefaults_agree entries keyMap keyMap0 : forall v,
  GetFields v = fst <$> AllSettingT ->
  (forall k, is_Some (fieldOfKey k (fst <$> AllSettingT)) ->
     default false (keyMap !! k) = default false (keyMap0 !! k)) ->
  applyDefaults entries keyMap v = applyDefaults entries keyMap0 v.
Proof.
  intros v Hfields Hagree. revert v Hfields.
  induction entries as [|[k d] entries IH]; intros v Hfields; [done|]. simpl.
  destruct (fieldOfKey k (fst <$> AllSettingT)) as [f|] eqn:Hf.
  - rewrite (Hagree k) by (by rewrite Hf).
    destruct (default false (keyMap0 !! k)); [by apply IH|].
    destruct (setSetting v k d) as [v1 [e|]] eqn:Hset; [done|].
    apply IH. by rewrite (setSetting_GetFields _ _ _ _ _ Hset).
  - rewrite setSetting_not_field by (by rewrite Hfields).
    rewrite (IH v Hfields). by destruct (default false _), (default false _).
Qed.

(** X6: rows whose key is not the json tag of any field (the secret, keys of
    an older schema) have no part in [GetAllSetting]: with those rows taken
    out of the table the result is the same, aggregate or error. *)
Theorem GetAllSetting_ignores_unknown_rows entries w :
  GetAllSetting entries (mkWorld (List.filter knownRow (table w)) (sink w))
  = GetAllSetting entries w.
Proof.
  unfold GetAllSetting, dbFind. simpl.
  destruct (fault OpFind); [done|].
  destruct (applySettings_filter (table w) (zeroValue AllSettingT) ∅ ∅)
    as (v & keyMap & keyMap0 & err & -> & -> & Hfields & Hagree);
    [apply GetFields_zeroValue|done|].
  destruct err; [done|].
  by rewrite (applyDefaults_agree entries keyMap keyMap0 v Hfields Hagree).
Qed.



Section Overlay.

Hypothesis AllSettingT_wf : WellFormed (fst <$> AllSettingT).

(** Setting another key leaves the field of [key] as it is. *)
Lemma setSetting_other_key v key field k value v' err :
  TypeOf v = AllSettingT ->
  fieldOfKey key (fst <$> AllSettingT) = Some field ->
  k <> key ->
  setSetting v k value = (v', err) ->
  FieldByName v' (Name field) = FieldByName v (Name field).
Proof.
  intros Hv Hfield Hne Hset.
  apply (setSetting_other_field _ _ _ _ _ _ Hset).
  rewrite (GetFields_of_type v AllSettingT Hv). intros f Hf Heq.
  apply fieldOfKey_Some in Hf as [Hf Hk], Hfield as [Hfield Hkey].
  assert (f = field) by by apply (WellFormed_Name_inj (fst <$> AllSettingT)).
  congruence.
Qed.

Lemma applySettings_other settings key field : forall v keyMap v' keyMap',
  key ∉ Key <$> settings ->
  TypeOf v = AllSettingT ->
  fieldOfKey key (fst <$> AllSettingT) = Some field ->
  applySettings settings v keyMap = (v', keyMap', None) ->
  FieldByName v' (Name field) = FieldByName v (Name field).
Proof.
  induction settings as [|r rows IH]; simpl; intros v keyMap v' keyMap' Hkey Hv Hfield.
  - by intros [= <- <-].
  - apply not_elem_of_cons in Hkey as [Hne Hkey].
    destruct (setSetting v (Key r) (Value r)) as [v1 [e|]] eqn:Hset; [done|].
    intros Hrest.
    assert (Hv1 : TypeOf v1 = AllSettingT)
      by (rewrite <- Hv; by apply setSetting_TypeOf in Hset).
    rewrite (IH _ _ _ _ Hkey Hv1 Hfield Hrest).
    by apply (setSetting_other_key v key field (Key r) (Value r) v1 None).
Qed.

(** The row of a key ends up, decoded, in the field of that key. *)
Lemma applySettings_row settings r field kind : forall v keyMap v' keyMap',
  NoDup (Key <$> settings) ->
  r ∈ settings ->
  TypeOf v = AllSettingT ->
  fieldOfKey (Key r) (fst <$> AllSettingT) = Some field ->
  FieldByName AllSettingT (Name field) = Some kind ->
  applySettings settings v keyMap = (v', keyMap', None) ->
  exists x, decode kind (Value r) = Some x /\ FieldByName v' (Name field) = Some x.
Proof.
  induction settings as [|r0 rows IH]; simpl;
    intros v keyMap v' keyMap' Hnd Hin Hv Hfield Hkind.
  - by apply elem_of_nil in Hin.
  - apply NoDup_cons in Hnd as [Hr0 Hnd].
    apply elem_of_cons in Hin as [->|Hin].
    + destruct (value_of_type v AllSettingT _ _ Hv Hkind) as (y & Hy & Hyk).
      pose proof Hfield as Hfield'.
      rewrite <- (GetFields_of_type v AllSettingT Hv) in Hfield'.
      destruct (decode kind (Value r0)) as [x|] eqn:Hx.
      * rewrite (setSetting_decoded v (Key r0) (Value r0) field y x) by (by rewrite ?Hyk).
        intros Hrest. exists x. split; [done|].
        assert (Hv1 : TypeOf (SetField v (Name field) x) = AllSettingT).
        { rewrite <- Hv. apply (TypeOf_SetField _ _ _ y Hy).
          apply decode_kind in Hx. congruence. }
        rewrite (applySettings_other rows (Key r0) field _ _ _ _ Hr0 Hv1 Hfield Hrest).
        apply FieldByName_SetField_eq. by rewrite Hy.
      * destruct (setSetting_undecoded v (Key r0) (Value r0) field y) as (e & -> & _);
          [done|done|by rewrite Hyk|done].
    + assert (Key r0 <> Key r).
      { intros Heq. apply Hr0. rewrite Heq. apply list_elem_of_fmap. by exists r. }
      destruct (setSetting v (Key r0) (Value r0)) as [v1 [e|]] eqn:Hset; [done|].
      apply IH; try done. rewrite <- Hv. by apply setSetting_TypeOf in Hset.
Qed.

(** A default whose key a row has satisfied is not applied. *)
Lemma applyDefaults_skipped entries keyMap key field : forall v v',
  default false (keyMap !! key) = true ->
  TypeOf v = AllSettingT ->
  fieldOfKey key (fst <$> AllSettingT) = Some field ->
  applyDefaults entries keyMap v = (v', None) ->
  FieldByName v' (Name field) = FieldByName v (Name field).
Proof.
  induction entries as [|[k d] entries IH]; simpl; intros v v' Hmap Hv Hfield.
  - by intros [= <-].
  - destruct (default false (keyMap !! k)) eqn:Hk; [by apply IH|].
    assert (k <> key) by congruence.
    destruct (setSetting v k d) as [v1 [e|]] eqn:Hset; [done|].
    intros Hrest.
    assert (Hv1 : TypeOf v1 = AllSettingT)
      by (rewrite <- Hv; by apply setSetting_TypeOf in Hset).
    rewrite (IH v1 v' Hmap Hv1 Hfield Hrest).
    by apply (setSetting_other_key v key field k d v1 None).
Qed.

(** X7: the aggregate and the single-key accessor agree.  Whatever string
    [getString] returns for the key of a field, a row or else a default, is
    the string [GetAllSetting] decodes into that field: a row wins over the
    default in both. *)
Theorem GetAllSetting_agrees_with_getString entries w allSetting field kind str :
  entries ≡ₚ map_to_list defaultValueMap ->
  NoDup (Key <$> table w) ->
  (field, kind) ∈ AllSettingT ->
  GetAllSetting entries w = (Some allSetting, None) ->
  getString (Tag field) w = (str, None) ->
  exists x, decode kind str = Some x /\ FieldByName allSetting (Name field) = Some x.
Proof.
  intros Hperm Hnd Hin Hget Hstr.
  destruct (GetAllSetting_inv _ _ _ Hget) as (v & keyMap & _ & Hrows & Hdefs).
  assert (Hv : TypeOf v = AllSettingT).
  { apply applySettings_TypeOf in Hrows. by rewrite Hrows, TypeOf_zeroValue. }
  assert (Hfield : fieldOfKey (Tag field) (fst <$> AllSettingT) = Some field).
  { apply fieldOfKey_elem; [apply AllSettingT_wf|].
    apply list_elem_of_fmap. by exists (field, kind). }
  assert (Hkind : FieldByName AllSettingT (Name field) = Some kind).
  { apply FieldByName_elem; [apply AllSettingT_wf|done]. }
  unfold getString, getSetting in Hstr.
  destruct (fault (OpFirst (Tag field))); [done|].
  destruct (find (hasKey (Tag field)) (table w)) as [r|] eqn:Hrow; simpl in Hstr.
  - injection Hstr as <-. apply find_hasKey_Some in Hrow as [Hr Hkey].
    rewrite <- Hkey in Hfield.
    destruct (applySettings_row (table w) r field kind _ _ v keyMap Hnd Hr
                (TypeOf_zeroValue _) Hfield Hkind Hrows) as (x & Hx & Hread).
    exists x. split; [done|]. rewrite <- Hread.
    apply (applyDefaults_skipped entries keyMap (Key r)); try done.
    apply (applySettings_keyMap _ _ _ _ _ (Key r) Hrows). right.
    apply list_elem_of_fmap. by exists r.
  - destruct (defaultValueMap !! Tag field) as [value|] eqn:Hdef; [|done].
    injection Hstr as <-. apply find_hasKey_None in Hrow.
    apply (applyDefaults_default AllSettingT_wf entries keyMap (Tag field) value
             field kind v allSetting); try done.
    + rewrite Hperm. apply NoDup_fst_map_to_list.
    + rewrite Hperm. by apply elem_of_map_to_list.
    + apply not_true_is_false. intros Htrue.
      apply (applySettings_keyMap _ _ _ _ _ (Tag field) Hrows) in Htrue as [Htrue|Htrue];
        [by rewrite lookup_empty in Htrue|done].
Qed.


(** The defaults the loop applies all fit their fields when the loop goes
    through, and the loop goes through when they all fit. *)
Lemma applyDefaults_succeeds_where entries keyMap : forall v,
  TypeOf v = AllSettingT ->
  (forall key value field kind,
     (key, value) ∈ entries ->
     default false (keyMap !! key) = false ->
     fieldOfKey key (fst <$> AllSettingT) = Some field ->
     FieldByName AllSettingT (Name field) = Some kind ->
     is_Some (decode kind value)) ->
  exists v', applyDefaults entries keyMap v = (v', None).
Proof.
  induction entries as [|[k d] entries IH]; simpl; intros v Hv Hfit; [by eexists|].
  assert (Hfit' : forall key value field kind,
     (key, value) ∈ entries ->
     default false (keyMap !! key) = false ->
     fieldOfKey key (fst <$> AllSettingT) = Some field ->
     FieldByName AllSettingT (Name field) = Some kind ->
     is_Some (decode kind value)).
  { intros key value field kind Hin. apply Hfit. by right. }
  destruct (default false (keyMap !! k)) eqn:Hk; [by apply IH|].
  destruct (setSetting_cases v k d) as [[_ ->]|(f & y & Hf & Hy & H)]; [by apply IH|].
  rewrite (GetFields_of_type v AllSettingT Hv) in Hf.
  destruct (Hfit k d f (kindOf y)) as [x Hx];
    [by left|done|done|by eapply kind_of_type|].
  rewrite Hx in H. rewrite H. apply IH; [|done].
  rewrite <- Hv. apply (TypeOf_SetField _ _ _ y Hy). by apply decode_kind in Hx.
Qed.

Lemma applyDefaults_perm entries1 entries2 keyMap v v1 :
  NoDup entries1.*1 ->
  entries1 ≡ₚ entries2 ->
  TypeOf v = AllSettingT ->
  applyDefaults entries1 keyMap v = (v1, None) ->
  applyDefaults entries2 keyMap v = (v1, None).
Proof.
  intros Hnd Hperm Hv Hone.
  assert (Hnd2 : NoDup entries2.*1) by (by rewrite <- Hperm).
  destruct (applyDefaults_succeeds_where entries2 keyMap v Hv) as [v2 Htwo].
  { intros key value field kind Hin Hmap Hfield Hkind. rewrite <- Hperm in Hin.
    destruct (applyDefaults_default AllSettingT_wf entries1 keyMap key value field kind
                v v1 Hnd Hin Hmap Hv Hfield Hkind Hone) as (x & -> & _).
    by eexists. }
  rewrite Htwo. f_equal.
  pose proof (applyDefaults_TypeOf _ _ _ _ _ Hone) as Ht1.
  pose proof (applyDefaults_TypeOf _ _ _ _ _ Htwo) as Ht2.
  apply Struct_ext.
  - rewrite (GetFields_of_type v1 AllSettingT) by congruence. apply AllSettingT_wf.
  - apply same_fields_of_type. congruence.
  - intros f Hf. rewrite (GetFields_of_type v1 AllSettingT) in Hf by congruence.
    assert (Hfield : fieldOfKey (Tag f) (fst <$> AllSettingT) = Some f)
      by (apply fieldOfKey_elem; [apply AllSettingT_wf|done]).
    destruct (default false (keyMap !! Tag f)) eqn:Hmap.
    { rewrite (applyDefaults_skipped entries2 keyMap (Tag f) f v v2); try done.
      by rewrite (applyDefaults_skipped entries1 keyMap (Tag f) f v v1). }
    destruct (decide (Tag f ∈ entries1.*1)) as [Hin|Hout].
    + apply list_elem_of_fmap in Hin as ([k d] & Hk & Hin). simpl in Hk. subst k.
      apply list_elem_of_fmap in Hf as Hslot. destruct Hslot as ([f' kind] & Hf' & Hslot).
      simpl in Hf'. subst f'.
      pose proof (FieldByName_elem AllSettingT f kind (proj1 AllSettingT_wf) Hslot) as Hkind.
      destruct (applyDefaults_default AllSettingT_wf entries1 keyMap (Tag f) d f kind
                  v v1 Hnd Hin Hmap Hv Hfield Hkind Hone) as (x1 & Hx1 & ->).
      rewrite Hperm in Hin.
      destruct (applyDefaults_default AllSettingT_wf entries2 keyMap (Tag f) d f kind
                  v v2 Hnd2 Hin Hmap Hv Hfield Hkind Htwo) as (x2 & Hx2 & ->).
      congruence.
    + rewrite (applyDefaults_other AllSettingT_wf entries1 keyMap (Tag f) f v v1);
        [|done..].
      rewrite (applyDefaults_other AllSettingT_wf entries2 keyMap (Tag f) f v v2);
        [done|by rewrite <- Hperm|done..].
Qed.

(** X9: the order in which Go visits [defaultValueMap] does not show in the
    aggregate: two visits of the same map return the same aggregate, and one
    fails exactly when the other does. *)
Theorem GetAllSetting_order_independent entries1 entries2 w :
  entries1 ≡ₚ map_to_list defaultValueMap ->
  entries2 ≡ₚ map_to_list defaultValueMap ->
  fst (GetAllSetting entries1 w) = fst (GetAllSetting entries2 w).
Proof.
  intros H1 H2.
  assert (Hnd : forall entries, entries ≡ₚ map_to_list defaultValueMap -> NoDup entries.*1).
  { intros entries ->. apply NoDup_fst_map_to_list. }
  assert (Hmove : forall e1 e2 a,
    e1 ≡ₚ map_to_list defaultValueMap -> e2 ≡ₚ map_to_list defaultValueMap ->
    GetAllSetting e1 w = (Some a, None) -> GetAllSetting e2 w = (Some a, None)).
  { intros e1 e2 a He1 He2 Hget.
    destruct (GetAllSetting_inv _ _ _ Hget) as (v & keyMap & Hfind & Hrows & Hdefs).
    unfold GetAllSetting, dbFind. rewrite Hfind, Hrows.
    rewrite (applyDefaults_perm e1 e2 keyMap v a); try done.
    - by apply Hnd.
    - by rewrite He1, He2.
    - apply applySettings_TypeOf in Hrows. by rewrite Hrows, TypeOf_zeroValue. }
  destruct (GetAllSetting_result entries1 w) as [[a Ha]|[e Ha]].
  - by rewrite Ha, (Hmove entries1 entries2 a H1 H2 Ha).
  - destruct (GetAllSetting_result entries2 w) as [[a' Ha']|[e' Ha']].
    + rewrite (Hmove entries2 entries1 a' H2 H1 Ha') in Ha. done.
    + by rewrite Ha, Ha'.
Qed.

End Overlay.

(* ===================================================================== *)
(** ** More on the write: what a bulk write leaves alone                  *)
(* ===================================================================== *)

Lemma saveRow_same key value t :
  find (hasKey key) t = Some (mkSetting key value) -> saveRow key value t = t.
Proof.
  induction t as [|r t IH]; simpl; [done|].
  destruct (hasKey key r) eqn:Hr; [by intros [= ->]|].
  intros Hrest. by rewrite IH.
Qed.

(** Saving what the row already holds leaves the table as it is, whether
    the call fails or not. *)
Lemma saveSetting_same_value key value w :
  find (hasKey key) (table w) = Some (mkSetting key value) ->
  table (snd (saveSetting key value w)) = table w.
Proof.
  intros Hrow. unfold saveSetting, getSetting, dbSave.
  destruct (fault (OpFirst key)); simpl; [done|]. rewrite Hrow. simpl.
  destruct (fault (OpSave key)); simpl; [done|]. by apply saveRow_same.
Qed.

Lemma saveFields_same_values v slots : forall errs w,
  (forall f x, (f, x) ∈ slots ->
     FieldByName v (Name f) = Some x /\
     find (hasKey (Tag f)) (table w) = Some (rowOf (f, x))) ->
  table (snd (saveFields v (fst <$> slots) errs w)) = table w.
Proof.
  induction slots as [|[f x] slots IH]; intros errs w Hrows; [done|].
  rewrite fmap_cons, saveFields_cons. cbn [fst].
  destruct (Hrows f x) as [-> Hrow]; [left|].
  pose proof (saveSetting_same_value (Tag f) (Sprint x) w Hrow) as Hsame.
  assert (Hrows' : forall g y, (g, y) ∈ slots ->
    FieldByName v (Name g) = Some y /\
    find (hasKey (Tag g)) (table (snd (saveSetting (Tag f) (Sprint x) w))) = Some (rowOf (g, y))).
  { intros g y Hin. rewrite Hsame. apply Hrows. by right. }
  destruct (saveSetting (Tag f) (Sprint x) w) as [[e|] w1]; simpl in *;
    rewrite (IH _ w1 Hrows'); done.
Qed.

(** X10: writing the same aggregate again changes no row.  After a bulk
    write that went through, a second bulk write of that aggregate leaves the
    table exactly as the first left it, also when storage calls of the second
    write fail. *)
Theorem UpdateAllSetting_again given given' written w :
  CheckValid given = (written, None) ->
  CheckValid given' = (written, None) ->
  WellFormed (GetFields written) ->
  fst (UpdateAllSetting given w) = None ->
  table (snd (UpdateAllSetting given' (snd (UpdateAllSetting given w))))
  = table (snd (UpdateAllSetting given w)).
Proof.
  intros Hvalid Hvalid' Hwf Hok.
  destruct (UpdateAllSetting_valid given written w Hvalid Hwf)
    as (w1 & Hupd & Hsaved & _).
  rewrite Hupd in Hok. simpl in Hok. apply Combine_None in Hok.
  pose proof (saveFailures_nil written w Hok) as Hnone.
  rewrite UpdateAllSetting_table, Hvalid'.
  apply saveFields_same_values. intros f x Hin. split.
  - apply FieldByName_elem; [apply Hwf|done].
  - rewrite Hupd, Hok. simpl. by rewrite (Hsaved f x Hin), (Hnone f x Hin).
Qed.

Lemma saveSetting_other_key key value w k :
  k <> key ->
  find (hasKey k) (table (snd (saveSetting key value w))) = find (hasKey k) (table w).
Proof.
  intros Hne.
  destruct (saveSetting_cases key value w) as [[msg ->]|(w' & -> & _ & Hrest & _)];
    [done|by apply Hrest].
Qed.

Lemma saveSetting_keeps_keys key value w k :
  k ∈ Key <$> table w -> k ∈ Key <$> table (snd (saveSetting key value w)).
Proof.
  intros Hin. rewrite saveSetting_keys.
  destruct (decide _); [done|].
  destruct (fst _); [done|]. apply elem_of_app. by left.
Qed.

Lemma saveFields_other_keys v fields k : forall errs w,
  k ∉ Tag <$> fields ->
  find (hasKey k) (table (snd (saveFields v fields errs w))) = find (hasKey k) (table w).
Proof.
  induction fields as [|f fields IH]; intros errs w Hk; [done|].
  rewrite fmap_cons in Hk. apply not_elem_of_cons in Hk as [Hne Hk].
  rewrite saveFields_cons. destruct (FieldByName v (Name f)) as [x|]; [|done].
  pose proof (saveSetting_other_key (Tag f) (Sprint x) w k Hne) as Hstep.
  destruct (saveSetting (Tag f) (Sprint x) w) as [[e|] w1]; simpl in *;
    by rewrite IH.
Qed.

Lemma saveFields_keeps_keys v fields k : forall errs w,
  k ∈ Key <$> table w ->
  k ∈ Key <$> table (snd (saveFields v fields errs w)).
Proof.
  induction fields as [|f fields IH]; intros errs w Hk; [done|].
  rewrite saveFields_cons. destruct (FieldByName v (Name f)) as [x|]; [|done].
  pose proof (saveSetting_keeps_keys (Tag f) (Sprint x) w k Hk) as Hstep.
  destruct (saveSetting (Tag f) (Sprint x) w) as [[e|] w1]; simpl in *;
    by apply IH.
Qed.

(** X11: [UpdateAllSetting] touches only the keys of the aggregate.  A key
    that is not the json tag of a field (the pinned secret, say) keeps its
    row, and no key of the table loses its row, whatever validation says and
    whichever storage calls fail. *)
Theorem UpdateAllSetting_leaves_other_keys given written err w :
  CheckValid given = (written, err) ->
  (forall k, k ∉ Tag <$> GetFields written ->
     find (hasKey k) (table (snd (UpdateAllSetting given w))) = find (hasKey k) (table w)) /\
  (forall k, k ∈ Key <$> table w -> k ∈ Key <$> table (snd (UpdateAllSetting given w))).
Proof.
  intros Hvalid. rewrite UpdateAllSetting_table, Hvalid.
  destruct err; [done|]. split.
  - intros k Hk. by apply saveFields_other_keys.
  - intros k Hk. by apply saveFields_keeps_keys.
Qed.

(* ===================================================================== *)
(** ** The secret, the base path and the time zone                        *)
(* ===================================================================== *)

(** X12: every [saveSetting] that goes through dispatches one upload that
    carries the key and the value as they are, and a [saveSetting] that
    fails dispatches none.  [GetSecret] saves through the same routine: in
    the process whose generated default is the secret in use, a call that
    saves hands the secret itself to the upload. *)
Theorem saveSetting_uploads key value w :
  (fst (saveSetting key value w) = None ->
     sink (snd (saveSetting key value w)) = sink w ++ [UploadKey key value]) /\
  (fst (saveSetting key value w) <> None ->
     sink (snd (saveSetting key value w)) = sink w) /\
  (fst (getString "secret" w) = defaultSecret ->
   fst (saveSetting "secret" defaultSecret w) = None ->
   sink (snd (GetSecret w)) = sink w ++ [UploadKey "secret" defaultSecret]).
Proof.
  assert (Hsave : forall k v,
    fst (saveSetting k v w) = None ->
    sink (snd (saveSetting k v w)) = sink w ++ [UploadKey k v]).
  { intros k v Hok.
    destruct (saveSetting_cases k v w) as [[msg Hs]|(w' & Hs & _ & _ & _ & Hsink)];
      rewrite Hs in *; [done|done]. }
  split; [apply Hsave|]. split.
  - intros Hfail.
    destruct (saveSetting_cases key value w) as [[msg Hs]|(w' & Hs & _)];
      rewrite Hs in *; [done|by destruct Hfail].
  - intros Hsecret Hok. unfold GetSecret.
    destruct (getString "secret" w) as [secret err]. simpl in Hsecret. subst secret.
    assert (Hdef : default EmptyString (defaultValueMap !! "secret"%string) = defaultSecret)
      by reflexivity.
    rewrite Hdef, String.eqb_refl. simpl. by apply Hsave.
Qed.

Lemma normalizeBasePath_fixed basePath :
  HasPrefix basePath "/" = true -> HasSuffix basePath "/" = true ->
  normalizeBasePath basePath = basePath.
Proof.
  unfold normalizeBasePath. intros Hp Hs. rewrite Hp. simpl. by rewrite Hs.
Qed.

(** X13: the normalisation of [GetBasePath] is idempotent, and its result
    can be stored back: after saving the path [GetBasePath] returned,
    [GetBasePath] returns that path again. *)
Theorem GetBasePath_stable w basePath :
  GetBasePath w = (basePath, None) ->
  normalizeBasePath basePath = basePath /\
  (fst (setString "webBasePath" basePath w) = None ->
   GetBasePath (snd (setString "webBasePath" basePath w)) = (basePath, None)).
Proof.
  unfold GetBasePath, setString.
  destruct (getString "webBasePath" w) as [stored [e|]] eqn:Hget; [done|].
  intros [= <-].
  destruct (normalizeBasePath_slashes stored) as [Hp Hs].
  pose proof (normalizeBasePath_fixed _ Hp Hs) as Hfix.
  split; [done|]. intros Hok.
  rewrite (saveSetting_read_back "webBasePath" (normalizeBasePath stored) w Hok).
  by rewrite Hfix.
Qed.

(** X14: a stored time zone that does not load is no error for
    [GetTimeLocation].  When the zone of the default catalog loads, the call
    returns the stored zone if that loads and the default zone if it does
    not; only a failure of [getString] or of the default zone itself comes
    back as an error. *)
Theorem GetTimeLocation_fallback w l defaultLocation :
  getString "timeLocation" w = (l, None) ->
  LoadLocation "Asia/Shanghai" = (defaultLocation, None) ->
  (forall location, LoadLocation l = (location, None) ->
     GetTimeLocation w = (location, None)) /\
  (forall location err, LoadLocation l = (location, Some err) ->
     GetTimeLocation w = (defaultLocation, None)) /\
  (exists location, GetTimeLocation w = (location, None)).
Proof.
  intros Hget Hdef. unfold GetTimeLocation. rewrite Hget.
  assert (Hzone : default EmptyString (defaultValueMap !! "timeLocation"%string)
                  = "Asia/Shanghai"%string) by reflexivity.
  rewrite Hzone, Hdef. split; [|split].
  - by intros location ->.
  - by intros location err ->.
  - destruct (LoadLocation l) as [location [e|]]; by eexists.
Qed.

(* ===================================================================== *)
(** ** The documents of the uploads                                       *)
(* ===================================================================== *)

(** X15: in the document of a single upload the metadata always wins.  The
    entries ["timestamp"] and ["operation"] are the ones the upload adds; the
    setting is in the document, through the type switch, when its key is
    neither of the two, and is overwritten when it is one of them. *)
Theorem settingDocument_entries key value now :
  settingDocument key value now !! "timestamp"%string
    = Some (mkFirestoreValue now EmptyString) /\
  settingDocument key value now !! "operation"%string
    = Some (mkFirestoreValue "setting_update" EmptyString) /\
  (key <> "timestamp"%string -> key <> "operation"%string ->
     settingDocument key value now !! key = Some (firestoreValueOf value) /\
     size (settingDocument key value now) = 3%nat) /\
  (key = "timestamp"%string \/ key = "operation"%string ->
     size (settingDocument key value now) = 2%nat).
Proof.
  unfold settingDocument. split; [|split; [|split]].
  - rewrite lookup_insert_ne by done. by rewrite lookup_insert_eq.
  - by rewrite lookup_insert_eq.
  - intros Ht Ho. split.
    + rewrite !lookup_insert_ne by done. by rewrite lookup_insert_eq.
    + rewrite !map_size_insert_None; [by rewrite map_size_empty|..].
      * by rewrite lookup_empty.
      * rewrite lookup_insert_ne by done. by rewrite lookup_empty.
      * rewrite !lookup_insert_ne by done. by rewrite lookup_empty.
  - intros [-> | ->].
    + rewrite insert_insert_eq.
      rewrite !map_size_insert_None; [by rewrite map_size_empty|..].
      * by rewrite lookup_empty.
      * rewrite lookup_insert_ne by done. by rewrite lookup_empty.
    + rewrite (insert_insert_ne _ "timestamp"%string "operation"%string) by done.
      rewrite insert_insert_eq.
      rewrite !map_size_insert_None; [by rewrite map_size_empty|..].
      * by rewrite lookup_empty.
      * rewrite lookup_insert_ne by done. by rewrite lookup_empty.
Qed.




End Service.

(* ===================================================================== *)
(** ** The theorems at work on sample states                              *)
(* ===================================================================== *)

Lemma sampleType_wf : WellFormed (fst <$> sampleType).
Proof. split; apply (bool_decide_unpack _); vm_compute; exact I. Defined.

Lemma sampleSetting_wf : WellFormed (GetFields sampleSetting).
Proof. split; apply (bool_decide_unpack _); vm_compute; exact I. Defined.

(** The write goes over a table that has a row for the port (update path)
    and none for the other keys (insert path). *)
Lemma UpdateAllSetting_GetAllSetting_roundtrip_witness :
  GetAllSetting sampleType noFault (map_to_list (defaultValueMap "{}" "s3cr3t"))
    (snd (UpdateAllSetting checkPort noFault sampleSetting oldWorld))
  = (Some sampleSetting, None).
Proof.
  apply (UpdateAllSetting_GetAllSetting_roundtrip sampleType checkPort noFault
           (map_to_list (defaultValueMap "{}" "s3cr3t"))
           sampleSetting sampleSetting oldWorld).
  - reflexivity.
  - reflexivity.
  - exact sampleSetting_wf.
  - repeat (constructor; [first [exact I | unfold storable, in_int; simpl; lia]|]).
    constructor.
  - apply (bool_decide_unpack _). vm_compute. exact I.
  - reflexivity.
  - vm_compute. reflexivity.
Defined.


Lemma UpdateAllSetting_invalid_witness :
  UpdateAllSetting checkPort noFault badPortSetting oldWorld
  = (Some (NewErrorf "web port is not a valid port"), oldWorld).
Proof.
  apply (UpdateAllSetting_invalid checkPort noFault badPortSetting oldWorld badPortSetting).
  reflexivity.
Defined.

Lemma GetAllSetting_rejects_non_numeric_witness :
  exists err,
    GetAllSetting sampleType noFault [] (mkWorld [mkSetting "webPort" "80a"] [])
      = (None, Some err) /\
    isTypeOrParseError err = true.
Proof.
  destruct (GetAllSetting_rejects_non_numeric sampleType noFault []
              (mkWorld [mkSetting "webPort" "80a"] []) (mkSetting "webPort" "80a")
              (mkField "WebPort" "webPort")) as (err & Hget & Herr & _).
  - repeat constructor.
  - reflexivity.
  - reflexivity.
  - reflexivity.
  - exists err. split; [exact Hget|]. apply Herr. reflexivity.
Defined.

(** The insert of key ["b"] fails: the row of ["a"] is there all the same,
    and the error holds the failure of ["b"]. *)
Lemma UpdateAllSetting_partial_failure_witness :
  fst (UpdateAllSetting acceptAll (lockedOn "b") twoKeys emptyWorld)
    = Some (MultiError [StorageError "database is locked"]) /\
  find (hasKey "a") (table (snd (UpdateAllSetting acceptAll (lockedOn "b") twoKeys emptyWorld)))
    = Some (mkSetting "a" "1").
Proof.
  destruct (UpdateAllSetting_partial_failure acceptAll (lockedOn "b") twoKeys twoKeys
              emptyWorld) as (Herr & Hsaved & _).
  - reflexivity.
  - split; apply (bool_decide_unpack _); vm_compute; exact I.
  - split.
    + rewrite Herr. vm_compute. reflexivity.
    + apply (Hsaved (mkField "A" "a") (VString "1")); [repeat constructor|].
      vm_compute. reflexivity.
Defined.

Lemma getString_getInt_spec_witness :
  getString "{}" "s3cr3t" noFault "webPort" oldWorld = ("54321"%string, None) /\
  getInt "{}" "s3cr3t" noFault "webPort" oldWorld = (54321, None).
Proof.
  destruct (getString_getInt_spec "{}" "s3cr3t" noFault "webPort" oldWorld)
    as (Hrow & _ & _ & Hint & _).
  - apply (bool_decide_unpack _). vm_compute. exact I.
  - reflexivity.
  - split.
    + apply (Hrow (mkSetting "webPort" "54321")); [repeat constructor|reflexivity].
    + apply (Hint "54321"%string).
      * apply (Hrow (mkSetting "webPort" "54321")); [repeat constructor|reflexivity].
      * reflexivity.
      * unfold in_int. change (2 ^ (64 - 1)) with 9223372036854775808. lia.
Defined.

Lemma GetBasePath_normalized_witness :
  GetBasePath "{}" "s3cr3t" noFault (mkWorld [mkSetting "webBasePath" "api"] [])
  = ("/api/"%string, None).
Proof.
  destruct (GetBasePath_normalized "{}" "s3cr3t" noFault
              (mkWorld [mkSetting "webBasePath" "api"] []) "api")
    as (basePath & Hget & _ & _ & Hapi & _).
  - reflexivity.
  - rewrite Hget, (Hapi eq_refl). reflexivity.
Defined.

Lemma GetSecret_pins_default_witness :
  fst (GetSecret "{}" "s3cr3t" noFault emptyWorld) = ("s3cr3t"%string, None) /\
  find (hasKey "secret") (table (snd (GetSecret "{}" "s3cr3t" noFault emptyWorld)))
    = Some (mkSetting "secret" "s3cr3t").
Proof.
  destruct (GetSecret_pins_default "{}" "s3cr3t" noFault emptyWorld "s3cr3t" None)
    as (Hresult & Hrow & _).
  - reflexivity.
  - split; [exact Hresult|]. apply Hrow; reflexivity.
Defined.

Lemma GetAllSetting_int32_range_witness :
  GetAllSetting sampleType noFault [] (mkWorld [mkSetting "webPort" "2147483648"] [])
  = (None, Some (ParseError (rangeError "ParseInt" "2147483648"))).
Proof.
  destruct (GetAllSetting_int32_range sampleType noFault []
              (mkWorld [mkSetting "webPort" "2147483648"] [])
              (mkSetting "webPort" "2147483648") (mkField "WebPort" "webPort")
              2147483648) as (_ & _ & Hfirst).
  - repeat constructor.
  - reflexivity.
  - reflexivity.
  - reflexivity.
  - unfold in_int. change (2 ^ (32 - 1)) with 2147483648. lia.
  - apply (Hfirst [] [] (zeroValue sampleType) ∅); reflexivity.
Defined.

(** C5, as the spec states it, would let the caller read the failed keys off
    the error returned.  No function from errors to keys can do that: when
    the insert of ["a"] fails and when the insert of ["b"] fails the storage
    layer gives the same message, and the bulk write returns the same
    error. *)
Lemma UpdateAllSetting_error_hides_key :
  ~ exists keysOf : error -> list string,
      forall fault written w err,
        WellFormed (GetFields written) ->
        fst (UpdateAllSetting acceptAll fault written w) = Some err ->
        keysOf err = failedKeys fault written w.
Proof.
  intros [keysOf Hkeys].
  assert (Hwf : WellFormed (GetFields twoKeys))
    by (split; apply (bool_decide_unpack _); vm_compute; exact I).
  pose proof (Hkeys (lockedOn "a") twoKeys emptyWorld _ Hwf eq_refl) as Ha.
  pose proof (Hkeys (lockedOn "b") twoKeys emptyWorld _ Hwf eq_refl) as Hb.
  vm_compute in Ha, Hb. congruence.
Qed.


(* ===================================================================== *)
(** ** The secret across restarts, and the further properties at work     *)
(* ===================================================================== *)

(** X17: a pinned secret survives a restart.  Once [GetSecret] has saved
    the secret of the process that generated it, a later process, with
    another generated default, gets that first secret from [GetSecret], and
    writes nothing when its own default differs. *)
Theorem GetSecret_pinned_across_restarts
  (tmpl secret tmpl' secret' : string) (fault fault' : Op -> option string) (w : World) :
  fst (getString tmpl secret fault "secret" w) = secret ->
  fst (saveSetting fault "secret" secret w) = None ->
  fault' (OpFirst "secret") = None ->
  fst (GetSecret tmpl' secret' fault' (snd (GetSecret tmpl secret fault w)))
    = (secret, None) /\
  (secret' <> secret ->
   snd (GetSecret tmpl' secret' fault' (snd (GetSecret tmpl secret fault w)))
   = snd (GetSecret tmpl secret fault w)).
Proof.
  intros Hsecret Hok Hfetch.
  assert (Hpin : snd (GetSecret tmpl secret fault w)
                 = snd (saveSetting fault "secret" secret w)).
  { unfold GetSecret. destruct (getString tmpl secret fault "secret" w) as [s e].
    simpl in Hsecret. subst s.
    change (default EmptyString (defaultValueMap tmpl secret !! "secret"%string))
      with secret.
    by rewrite String.eqb_refl. }
  rewrite Hpin.
  destruct (saveSetting_cases fault "secret" secret w)
    as [[msg Hs]|(w' & Hs & Hrow & _)]; rewrite Hs in *; [done|]. simpl.
  unfold GetSecret.
  rewrite (getString_row tmpl' secret' fault' "secret" secret w' Hfetch Hrow).
  change (default EmptyString (defaultValueMap tmpl' secret' !! "secret"%string))
    with secret'.
  destruct (String.eqb_spec secret secret') as [Heq|Hne]; simpl.
  - split; [done|]. intros Hne. by destruct Hne.
  - done.
Qed.

Lemma GetSecret_pinned_across_restarts_witness :
  fst (GetSecret "{}" "n3wd3f4ult" noFault
         (snd (GetSecret "{}" "s3cr3t" noFault emptyWorld)))
  = ("s3cr3t"%string, None).
Proof.
  destruct (GetSecret_pinned_across_restarts "{}" "s3cr3t" "{}" "n3wd3f4ult"
              noFault noFault emptyWorld) as [Hsecret _]; [reflexivity..|].
  exact Hsecret.
Defined.

(** The saved port wins over the default port. *)
Lemma saveSetting_then_getString_witness :
  getString "{}" "s3cr3t" noFault "webPort"
    (snd (saveSetting noFault "webPort" "8080" emptyWorld))
  = ("8080"%string, None).
Proof.
  destruct (saveSetting_then_getString "{}" "s3cr3t" noFault "webPort" "8080" emptyWorld)
    as [Hget _].
  - reflexivity.
  - exact Hget.
Defined.

Lemma service_keeps_keys_unique_witness :
  NoDup (Key <$> table (snd (UpdateAllSetting checkPort noFault sampleSetting oldWorld))).
Proof.
  destruct (service_keeps_keys_unique "{}" "s3cr3t" checkPort noFault oldWorld)
    as (_ & Hbulk & _).
  - apply (bool_decide_unpack _). vm_compute. exact I.
  - apply Hbulk.
Defined.

Lemma setInt_then_getInt_witness :
  getInt "{}" "s3cr3t" noFault "webPort"
    (snd (setInt noFault "webPort" 3000000000 emptyWorld))
  = (3000000000, None).
Proof.
  destruct (setInt_then_getInt "{}" "s3cr3t" noFault "webPort" 3000000000 emptyWorld)
    as [Hget _].
  - unfold in_int. change (2 ^ (64 - 1)) with 9223372036854775808. lia.
  - reflexivity.
  - exact Hget.
Defined.

Lemma SetPort_unchecked_witness :
  GetPort "{}" "s3cr3t" noFault (snd (SetPort noFault 3000000000 emptyWorld))
    = (3000000000, None) /\
  exists err,
    GetAllSetting sampleType noFault [] (snd (SetPort noFault 3000000000 emptyWorld))
    = (None, Some err).
Proof.
  apply (SetPort_unchecked "{}" "s3cr3t" sampleType noFault [] 3000000000 emptyWorld
           (mkField "WebPort" "webPort")).
  - unfold in_int. change (2 ^ (64 - 1)) with 9223372036854775808. lia.
  - unfold in_int. change (2 ^ (32 - 1)) with 2147483648. lia.
  - reflexivity.
  - reflexivity.
  - reflexivity.
Defined.

Lemma ResetSettings_then_read_witness :
  table (snd (ResetSettings noFault oldWorld)) = [] /\
  getString "{}" "s3cr3t" noFault "webPort" (snd (ResetSettings noFault oldWorld))
    = ("54321"%string, None).
Proof.
  destruct (ResetSettings_then_read "{}" "s3cr3t" sampleType noFault oldWorld)
    as [Hok _].
  destruct (Hok eq_refl) as (Htable & _ & _ & Hget).
  split; [exact Htable|]. apply Hget; reflexivity.
Defined.

Lemma GetAllSetting_agrees_with_getString_witness :
  exists allSetting,
    GetAllSetting sampleType noFault (map_to_list (defaultValueMap "{}" "s3cr3t"))
      (mkWorld [mkSetting "webPort" "8080"] []) = (Some allSetting, None) /\
    exists x, decode KInt "8080" = Some x /\
              FieldByName allSetting "WebPort" = Some x.
Proof.
  eexists. split; [vm_compute; reflexivity|].
  apply (GetAllSetting_agrees_with_getString "{}" "s3cr3t" sampleType noFault
           sampleType_wf (map_to_list (defaultValueMap "{}" "s3cr3t"))
           (mkWorld [mkSetting "webPort" "8080"] []) _
           (mkField "WebPort" "webPort") KInt "8080").
  - reflexivity.
  - apply (bool_decide_unpack _). vm_compute. exact I.
  - repeat constructor.
  - vm_compute. reflexivity.
  - reflexivity.
Defined.



Lemma GetAllSetting_order_independent_witness :
  fst (GetAllSetting sampleType noFault (map_to_list (defaultValueMap "{}" "s3cr3t")) oldWorld)
  = fst (GetAllSetting sampleType noFault
           (reverse (map_to_list (defaultValueMap "{}" "s3cr3t"))) oldWorld).
Proof.
  apply (GetAllSetting_order_independent "{}" "s3cr3t" sampleType noFault sampleType_wf).
  - reflexivity.
  - apply reverse_Permutation.
Defined.

Lemma UpdateAllSetting_again_witness :
  table (snd (UpdateAllSetting checkPort noFault sampleSetting
                (snd (UpdateAllSetting checkPort noFault sampleSetting oldWorld))))
  = table (snd (UpdateAllSetting checkPort noFault sampleSetting oldWorld)).
Proof.
  apply (UpdateAllSetting_again checkPort noFault sampleSetting sampleSetting sampleSetting
           oldWorld).
  - reflexivity.
  - reflexivity.
  - exact sampleSetting_wf.
  - vm_compute. reflexivity.
Defined.

(** The pinned secret is still there after a bulk write. *)
Lemma UpdateAllSetting_leaves_other_keys_witness :
  find (hasKey "secret")
    (table (snd (UpdateAllSetting checkPort noFault sampleSetting oldWorld)))
  = Some (mkSetting "secret" "s3cr3t").
Proof.
  destruct (UpdateAllSetting_leaves_other_keys checkPort noFault sampleSetting
              sampleSetting None oldWorld) as [Hother _].
  - reflexivity.
  - rewrite (Hother "secret"%string); [reflexivity|].
    apply (bool_decide_unpack _). vm_compute. exact I.
Defined.

Lemma saveSetting_uploads_witness :
  sink (snd (GetSecret "{}" "s3cr3t" noFault emptyWorld))
  = [UploadKey "secret" "s3cr3t"].
Proof.
  destruct (saveSetting_uploads "{}" "s3cr3t" noFault "secret" "s3cr3t" emptyWorld)
    as (_ & _ & Hsecret).
  rewrite Hsecret; reflexivity.
Defined.

Lemma GetBasePath_stable_witness :
  GetBasePath "{}" "s3cr3t" noFault
    (snd (setString noFault "webBasePath" "/api/"
            (mkWorld [mkSetting "webBasePath" "api"] [])))
  = ("/api/"%string, None).
Proof.
  destruct (GetBasePath_stable "{}" "s3cr3t" noFault
              (mkWorld [mkSetting "webBasePath" "api"] []) "/api/") as [_ Hstored].
  - reflexivity.
  - apply Hstored. reflexivity.
Defined.

(** A zone the host does not know gives the default zone. *)
Lemma GetTimeLocation_fallback_witness :
  GetTimeLocation "{}" "s3cr3t" noFault string sampleLoadLocation
    (mkWorld [mkSetting "timeLocation" "Mars/Olympus"] [])
  = (Some "Asia/Shanghai"%string, None).
Proof.
  destruct (GetTimeLocation_fallback "{}" "s3cr3t" noFault string sampleLoadLocation
              (mkWorld [mkSetting "timeLocation" "Mars/Olympus"] [])
              "Mars/Olympus" (Some "Asia/Shanghai"%string)) as (_ & Hbad & _).
  - reflexivity.
  - reflexivity.
  - apply (Hbad None (NewErrorf "unknown time zone Mars/Olympus")). reflexivity.
Defined.


(* ===================================================================== *)
(** ** The server service                                                 *)
(* ===================================================================== *)

Section ServerService.

Import Server.

Variable float64 : Type.
Variable Time : Type.
Variable RFC3339 : Time -> string.
Variable Marshal : gmap string (FieldValue float64) -> string * option oserr.


(** X19: the optional fields of the status document.  [xrayErrorMsg] is
    there exactly when xray left a message.  The loads are all there or all
    missing: with fewer than three figures none is written, not even the
    ones at hand, and figures after the third are dropped.  The other
    seventeen fields are always there. *)
Theorem convertToFirestoreFields_optional_fields (status : Status float64 Time) :
  let fields := convertToFirestoreFields RFC3339 status in
  fields !! "xrayErrorMsg"
    = (if String.eqb (XrayErrorMsg status) EmptyString then None
       else Some (stringValue (XrayErrorMsg status))) /\
  (fields !! "load1", fields !! "load5", fields !! "load15")
    = (if Nat.leb 3 (length (Loads status))
       then (doubleValue <$> Loads status !! 0%nat,
             doubleValue <$> Loads status !! 1%nat,
             doubleValue <$> Loads status !! 2%nat)
       else (None, None, None)) /\
  size fields
    = (17 + (if String.eqb (XrayErrorMsg status) EmptyString then 0 else 1)
          + (if Nat.leb 3 (length (Loads status)) then 3 else 0))%nat.
Proof.
  destruct status as [t cpu mc mt sc st dc dt xs msg xv up loads tcp udp nu nd ns nr ts].
  unfold convertToFirestoreFields; cbn [Server.XrayErrorMsg Server.Loads].
  destruct msg as [|a msg];
    destruct loads as [|l1 [|l5 [|l15 loads]]];
    vm_compute; done.
Qed.


(** *** Updating xray *)

Variable GOOS GOARCH : string.
Variable GetBinaryPath GetGeositePath GetGeoipPath : string.
Variable fails : Trace -> Call -> option oserr.

#[local] Abbreviation downloadXRay := (Server.downloadXRay GOOS GOARCH fails).
#[local] Abbreviation UpdateXray :=
  (Server.UpdateXray GOOS GOARCH GetBinaryPath GetGeositePath GetGeoipPath
     fails).
#[local] Abbreviation zipFileName := (xrayFileName GOOS GOARCH).




Lemma downloadXRay_name (version : string) (t : Trace) :
  snd (fst (downloadXRay version t)) = None ->
  fst (fst (downloadXRay version t)) = zipFileName.
Proof.
  unfold Server.downloadXRay, Server.call; cbn [fst snd].
  repeat (match goal with
          | |- context [fails ?t ?c] =>
              let E := fresh "E" in
              destruct (fails t c) eqn:E; cbn [fst snd]
          end); done.
Qed.

(** Every run of [UpdateXray], by the call that failed. *)
Ltac run_update :=
  unfold Server.UpdateXray, Server.downloadXRay, Server.copyZipFile,
    Server.call;
  cbn [fst snd];
  repeat (match goal with
          | |- context [fails ?t ?c] =>
              let E := fresh "E" in
              destruct (fails t c) eqn:E; cbn [fst snd]
          end);
  rewrite <- ?app_assoc; cbn [app].



Lemma rev_swap {A} (l l' : list A) : rev l = l' -> l = rev l'.
Proof. intros <-. by rewrite rev_involutive. Qed.

Lemma UpdateXray_opened (version : string) (t : Trace) :
  snd (fst (downloadXRay version t)) = None ->
  fails (snd (downloadXRay version t)) (OsOpen zipFileName) = None ->
  exists dim,
    snd (UpdateXray version t)
      = snd (downloadXRay version t)
        ++ OsOpen zipFileName
           :: rev (OsRemove zipFileName :: FileClose zipFileName :: dim).
Proof.
  intros Hd Ho. pose proof (downloadXRay_name version t Hd) as Hn.
  revert Hd Ho Hn. unfold Server.UpdateXray.
  destruct (downloadXRay version t) as [[name [e|]] t1]; cbn [fst snd];
    [done|].
  intros _ Ho ->. unfold Server.copyZipFile, Server.call; cbn [fst snd].
  rewrite Ho.
  repeat (match goal with
          | |- context [fails ?t ?c] =>
              let E := fresh "E" in
              destruct (fails t c) eqn:E; cbn [fst snd]
          end).
  all: rewrite <- ?app_assoc; cbn [app]; eexists; do 2 f_equal.
  all: apply rev_swap; cbn [rev app]; reflexivity.
Qed.

(** X22: the archive is cleaned up exactly when it could be opened.  After
    a download that went through, if the archive opens, the last two calls
    of the update are the close of the archive and its removal, whichever
    step failed in between; if it does not open, the update returns that
    error and stops there, and the downloaded file stays. *)
Theorem UpdateXray_removes_archive (version : string) (t : Trace) :
  snd (fst (downloadXRay version t)) = None ->
  let t1 := snd (downloadXRay version t) in
  match fails t1 (OsOpen zipFileName) with
  | Some e => UpdateXray version t = (Some e, t1 ++ [OsOpen zipFileName])
  | None =>
      exists mid,
        snd (UpdateXray version t)
          = t1 ++ OsOpen zipFileName
               :: mid ++ [FileClose zipFileName; OsRemove zipFileName]
  end.
Proof.
  intros Hd t1.
  destruct (fails t1 (OsOpen zipFileName)) as [e|] eqn:Ho.
  - subst t1. pose proof (downloadXRay_name version t Hd) as Hn.
    revert Hd Ho Hn. unfold Server.UpdateXray.
    destruct (downloadXRay version t) as [[name [e'|]] t1]; cbn [fst snd];
      [done|].
    intros _ Ho ->. unfold Server.call. by rewrite Ho.
  - destruct (UpdateXray_opened version t Hd Ho) as [dim Hdim].
    exists (rev dim). rewrite Hdim. cbn [rev]. by rewrite <- !app_assoc.
Qed.

(** X23: an update that reports no error has written the three files, the
    binary first, then [geosite.dat], then [geoip.dat]. *)
Theorem UpdateXray_success_copies (version : string) (t : Trace) :
  fst (UpdateXray version t) = None ->
  exists new,
    snd (UpdateXray version t) = t ++ new /\
    [CopyEntry "xray" GetBinaryPath;
     CopyEntry "geosite.dat" GetGeositePath;
     CopyEntry "geoip.dat" GetGeoipPath] `sublist_of` new.
Proof.
  run_update; intros Hok; try done.
  eexists; split; [reflexivity|].
  repeat first [apply sublist_nil_l | apply sublist_skip | apply sublist_cons].
Qed.

End ServerService.

Lemma UpdateXray_removes_archive_witness :
  snd (fst (Server.downloadXRay "linux" "amd64" Server.healthy "v1.8.4" []))
    = None /\
  exists mid,
    snd (Server.UpdateXray "linux" "amd64" "bin/xray-linux-amd64"
           "bin/geosite.dat" "bin/geoip.dat" Server.healthy "v1.8.4" [])
      = snd (Server.downloadXRay "linux" "amd64" Server.healthy "v1.8.4" [])
        ++ Server.OsOpen "Xray-linux-64.zip"
           :: mid ++ [Server.FileClose "Xray-linux-64.zip";
                      Server.OsRemove "Xray-linux-64.zip"].
Proof.
  split; [reflexivity|].
  exact (UpdateXray_removes_archive "linux" "amd64" "bin/xray-linux-amd64"
           "bin/geosite.dat" "bin/geoip.dat" Server.healthy "v1.8.4" []
           eq_refl).
Defined.

Lemma UpdateXray_success_copies_witness :
  fst (Server.UpdateXray "darwin" "arm64" "bin/xray-darwin-arm64"
         "bin/geosite.dat" "bin/geoip.dat" Server.healthy "v1.8.4" []) = None /\
  exists new,
    snd (Server.UpdateXray "darwin" "arm64" "bin/xray-darwin-arm64"
           "bin/geosite.dat" "bin/geoip.dat" Server.healthy "v1.8.4" [])
      = [] ++ new /\
    [Server.CopyEntry "xray" "bin/xray-darwin-arm64";
     Server.CopyEntry "geosite.dat" "bin/geosite.dat";
     Server.CopyEntry "geoip.dat" "bin/geoip.dat"] `sublist_of` new.
Proof.
  split; [reflexivity|].
  exact (UpdateXray_success_copies "darwin" "arm64" "bin/xray-darwin-arm64"
           "bin/geosite.dat" "bin/geoip.dat" Server.healthy "v1.8.4" []
           eq_refl).
Defined.

